(** * Control chart: a shallow embedding of [ControlChart/control_chart.py]

    The program reads numbers from standard input and runs a battery of
    statistical process control tests over rolling windows of the latest
    values, writing a line to standard error whenever a test fires.

    The development follows the source top down:
    - [PyFloat], the numbers of the program and their order, and
      [Binary64], the arithmetic of the interpreter;
    - the interpreter state ([world]: object heap, stdout, stderr) and a
      small state-and-exception monad [Py];
    - [Window], [err_out], the four test factories ([test_3_sigma],
      [test_2_sigma], [test_1_sigma], [test_cl_shift]) which return closures
      over heap-allocated windows, [control_chart], [load_stream],
      [parse_args] and [main];
    - a reference ring buffer with explicit modulo indexing, used to state
      what the exception-driven wrap of [Window.append] computes;
    - the theorems.

    Modelling decisions.
    - A Python float is a [pyfloat]: a rational, an infinity or NaN; the
      sign of zero is not kept. The comparisons are exact, and false with
      NaN as in IEEE 754. [Binary64] rounds the result of an operation to
      the nearest binary64 number, as the interpreter does, and [float]
      rounds the number it reads; [PyFloat]'s own [add], [sub] and [mul] do
      not round.
    - The limits of the 3-sigma, 2-sigma and 1-sigma tests are the only
      arithmetic of the program. Their factories are given twice: with the
      limits computed without rounding, which is enough for what is proved
      of windows, counts and the order of the lines, and in [Rounded] with
      the limits of the interpreter, for the statements that turn on the
      value of a limit.
    - A message written to a stream is kept as its format string together
      with the arguments it is applied to ([%g], [%s] and [%r] rendering is
      the interpreter's).
    - A generator is the list of its resumptions (see [generator]).
    - The command line is given as what argparse finds on it (see
      [argument]). *)

From Stdlib Require Import QArith Qround Qpower Qabs Lqa ZArith String Ascii List Lia Bool.
From stdpp Require Import base list.
Import ListNotations.

(** ** Numbers *)

Module PyFloat.

Inductive pyfloat : Type :=
| NaN
| Inf (negative : bool)
| Fin (q : Q).

Definition of_Z (z : Z) : pyfloat := Fin (inject_Z z).

(** Sign of a rational: [Lt] negative, [Eq] zero, [Gt] positive. *)
Definition Qsign (q : Q) : comparison := Qcompare q 0.

Definition neg (x : pyfloat) : pyfloat :=
  match x with
  | NaN => NaN
  | Inf s => Inf (negb s)
  | Fin q => Fin (- q)
  end.

Definition add (x y : pyfloat) : pyfloat :=
  match x, y with
  | NaN, _ | _, NaN => NaN
  | Inf s, Inf t => if Bool.eqb s t then Inf s else NaN
  | Inf s, Fin _ => Inf s
  | Fin _, Inf t => Inf t
  | Fin p, Fin q => Fin (p + q)
  end.

Definition sub (x y : pyfloat) : pyfloat := add x (neg y).

Definition mul_inf (s : bool) (q : Q) : pyfloat :=
  match Qsign q with
  | Eq => NaN
  | Lt => Inf (negb s)
  | Gt => Inf s
  end.

Definition mul (x y : pyfloat) : pyfloat :=
  match x, y with
  | NaN, _ | _, NaN => NaN
  | Inf s, Inf t => Inf (xorb s t)
  | Inf s, Fin q => mul_inf s q
  | Fin p, Inf t => mul_inf t p
  | Fin p, Fin q => Fin (p * q)
  end.

(** [x < y]; false as soon as one side is NaN. *)
Definition ltb (x y : pyfloat) : bool :=
  match x, y with
  | NaN, _ | _, NaN => false
  | Inf s, Inf t => s && negb t
  | Inf s, Fin _ => s
  | Fin _, Inf t => negb t
  | Fin p, Fin q => match Qcompare p q with Lt => true | _ => false end
  end.

(** [x > y] *)
Definition gtb (x y : pyfloat) : bool := ltb y x.

(** [x <= y]; false as soon as one side is NaN. *)
Definition leb (x y : pyfloat) : bool :=
  match x, y with
  | NaN, _ | _, NaN => false
  | Inf s, Inf t => s || negb t
  | Inf s, Fin _ => s
  | Fin _, Inf t => negb t
  | Fin p, Fin q => match Qcompare p q with Gt => false | _ => true end
  end.

End PyFloat.
Import PyFloat.

Declare Scope pyfloat_scope.
Delimit Scope pyfloat_scope with py.
Bind Scope pyfloat_scope with pyfloat.
Infix "+" := add : pyfloat_scope.
Infix "-" := sub : pyfloat_scope.
Infix "*" := mul : pyfloat_scope.
Infix "<?" := ltb : pyfloat_scope.
Infix ">?" := gtb : pyfloat_scope.
Infix "<=?" := leb : pyfloat_scope.

(** ** The arithmetic of the interpreter

    A Python float is an IEEE 754 binary64 number: 53 significant bits, no
    bit below [2^-1074], magnitudes below [2^1024]. The result of an
    operation is the exact result rounded to the nearest such number, to
    the one with the even significand when two are as near, and to an
    infinity when the magnitude of the rounded number would reach
    [2^1024]. *)
Module Binary64.

Definition pow2 (k : Z) : Q := (2 ^ k)%Q.

(** [floor (log2 q)], for [0 < q]. *)
Definition ilog2 (q : Q) : Z :=
  let k := (Z.log2 (Qnum q) - Z.log2 (Zpos (Qden q)))%Z in
  if Qle_bool (pow2 k) q then k else (k - 1)%Z.

(** The integer nearest to [x], the even one of the two when [x] is half
    way between them. *)
Definition rne (x : Q) : Z :=
  let f := Qfloor x in
  match (x - inject_Z f ?= 1 # 2)%Q with
  | Lt => f
  | Gt => (f + 1)%Z
  | Eq => if Z.even f then f else (f + 1)%Z
  end.

(** The exponent of the last bit of the significand of a number of
    magnitude [q]: 52 below that of its first bit, and never below -1074. *)
Definition ulp_exponent (q : Q) : Z := Z.max (ilog2 q - 52) (-1074).

(** The multiple of the last bit nearest to [q], for [0 <= q]: the
    magnitude of the rounded number, before overflow is looked at. *)
Definition nearest (q : Q) : Q :=
  let e := ulp_exponent q in
  (inject_Z (rne (q / pow2 e)) * pow2 e)%Q.

Definition round (q : Q) : pyfloat :=
  let negative := match (q ?= 0)%Q with Lt => true | _ => false end in
  let a := nearest (Qabs q) in
  if Qle_bool (pow2 1024) a then Inf negative
  else Fin (Qred (if negative then (- a)%Q else a)).

(** The float for an exact result. *)
Definition of_exact (x : pyfloat) : pyfloat :=
  match x with
  | Fin q => round q
  | _ => x
  end.

Definition add (x y : pyfloat) : pyfloat := of_exact (PyFloat.add x y).
Definition sub (x y : pyfloat) : pyfloat := of_exact (PyFloat.sub x y).
Definition mul (x y : pyfloat) : pyfloat := of_exact (PyFloat.mul x y).

(** A number that is a float: rounding leaves it as it is. *)
Definition is_float (x : pyfloat) : bool :=
  match x with
  | Fin q =>
      match round q with
      | Fin r => Qeq_bool r q
      | _ => false
      end
  | _ => true
  end.

End Binary64.

Declare Scope binary64_scope.
Delimit Scope binary64_scope with b64.
Arguments Binary64.add (x y)%_binary64_scope.
Arguments Binary64.sub (x y)%_binary64_scope.
Arguments Binary64.mul (x y)%_binary64_scope.
Infix "+" := Binary64.add : binary64_scope.
Infix "-" := Binary64.sub : binary64_scope.
Infix "*" := Binary64.mul : binary64_scope.

(** ** Interpreter state *)

(** What a format string is applied to. *)
Inductive arg : Type :=
| AFloat (x : pyfloat)          (* a float, rendered by [%g] *)
| AInt (k : nat)                (* an int, rendered by [%g] *)
| AArray (a : list pyfloat)     (* a numpy array, rendered by [%s] *)
| AStr (s : string).            (* a str, rendered by [%r] *)

(** A line written to a stream: [fmt % args]. *)
Record message : Type := Message { fmt : string; args : list arg }.

(** A [Window] object: the attributes set by [Window.__init__]. The numpy
    array [data] is owned by the object and updated in place. *)
Module Window.
Record t : Type := mk { idx : nat; n : nat; data : list pyfloat }.

Definition set_idx (w : t) (i : nat) : t := mk i (n w) (data w).
Definition set_data (w : t) (d : list pyfloat) : t := mk (idx w) (n w) d.
End Window.

(** Objects live in a heap and are referred to by their location; an
    allocation extends the heap at its end, nothing is ever freed. *)
Abbreviation loc := nat.

Record world : Type := World {
  heap : list Window.t;
  stdout : list message;
  stderr : list message
}.

Definition set_heap (w : world) (h : list Window.t) : world :=
  World h (stdout w) (stderr w).

Inductive exn : Type :=
| IndexError
| ValueError
| SystemExit (code : Z)
| SystemError.   (* a location outside the heap; no program below raises it *)

Inductive result (A : Type) : Type :=
| Ok (a : A)
| Raise (e : exn).
Arguments Ok {A} a.
Arguments Raise {A} e.

(** Computations: they read and update the world and either return a value
    or raise. The world survives an exception. *)
Definition Py (A : Type) : Type := world -> result A * world.

Definition ret {A} (a : A) : Py A := fun w => (Ok a, w).

Definition bind {A B} (c : Py A) (k : A -> Py B) : Py B :=
  fun w =>
    match c w with
    | (Ok a, w') => k a w'
    | (Raise e, w') => (Raise e, w')
    end.

Definition raise {A} (e : exn) : Py A := fun w => (Raise e, w).

(** [try: body except ...: handler]: [handler e] is [None] when no [except]
    clause matches [e]. *)
Definition try_except {A} (body : Py A) (handler : exn -> option (Py A)) : Py A :=
  fun w =>
    match body w with
    | (Ok a, w') => (Ok a, w')
    | (Raise e, w') =>
        match handler e with
        | Some h => h w'
        | None => (Raise e, w')
        end
    end.

Declare Scope py_scope.
Delimit Scope py_scope with Py.
Notation "x <- c ;; k" := (bind c (fun x => k))
  (at level 100, c at next level, k at level 200, right associativity) : py_scope.
Notation "c ;; k" := (bind c (fun _ => k))
  (at level 100, k at level 200, only parsing, right associativity) : py_scope.
Open Scope py_scope.

(** [for x in l: body x] *)
Fixpoint for_ {A} (l : list A) (body : A -> Py unit) : Py unit :=
  match l with
  | [] => ret tt
  | x :: l' => body x ;; for_ l' body
  end.

Definition alloc (o : Window.t) : Py loc :=
  fun w => (Ok (length (heap w)), set_heap w (heap w ++ [o])).

Definition heap_get (l : loc) : Py Window.t :=
  fun w =>
    match heap w !! l with
    | Some o => (Ok o, w)
    | None => (Raise SystemError, w)
    end.

Definition heap_put (l : loc) (o : Window.t) : Py unit :=
  fun w => (Ok tt, set_heap w (<[l := o]> (heap w))).

(** [print(msg)] *)
Definition print (msg : message) : Py unit :=
  fun w => (Ok tt, World (heap w) (stdout w ++ [msg]) (stderr w)).

(** [sys.exit(code)] *)
Definition sys_exit {A} (code : Z) : Py A := raise (SystemExit code).

(** ** numpy arrays *)

(** [a[i] = v]: [None] stands for the [IndexError] of an index past the
    end. Indices are never negative in this program. *)
Definition ndarray_setitem (a : list pyfloat) (i : nat) (v : pyfloat)
  : option (list pyfloat) :=
  if i <? length a then Some (<[i := v]> a) else None.

(** [np.empty(n)]: [n] slots of unspecified content. *)
Definition np_empty (n : nat) : list pyfloat := replicate n (Fin 0).

(** [a.fill(v)] *)
Definition ndarray_fill (a : list pyfloat) (v : pyfloat) : list pyfloat :=
  replicate (length a) v.

(** [a > v] and [a < v], elementwise. *)
Definition np_gt (a : list pyfloat) (v : pyfloat) : list bool :=
  map (fun x => x >? v)%py a.

Definition np_lt (a : list pyfloat) (v : pyfloat) : list bool :=
  map (fun x => x <? v)%py a.

(** [np.sum] of a boolean array: the number of [True] entries. *)
Fixpoint np_sum (b : list bool) : nat :=
  match b with
  | [] => 0
  | x :: b' => (if x then 1 else 0) + np_sum b'
  end.

(** ** The program *)

(** *** class Window *)

(** [Window(n, init)]: allocate the object and run [__init__]. *)
Definition Window_init (n : nat) (init : option pyfloat) : Py loc :=
  let data := np_empty n in
  let data :=
    match init with
    | None => ndarray_fill data NaN
    | Some v => ndarray_fill data v
    end in
  alloc (Window.mk 0 n data).

(** [self.data[self.idx] = value] *)
Definition Window_store (self : loc) (value : pyfloat) : Py unit :=
  o <- heap_get self ;;
  match ndarray_setitem (Window.data o) (Window.idx o) value with
  | Some d => heap_put self (Window.set_data o d)
  | None => raise IndexError
  end.

Definition Window_append (self : loc) (value : pyfloat) : Py unit :=
  try_except
    (Window_store self value)
    (fun e =>
       match e with
       | IndexError =>
           Some (o <- heap_get self ;;
                 heap_put self (Window.set_idx o 0) ;;
                 Window_store self value)
       | _ => None
       end) ;;
  o <- heap_get self ;;
  heap_put self (Window.set_idx o (Window.idx o + 1)).

(** [w.data] *)
Definition Window_data (self : loc) : Py (list pyfloat) :=
  o <- heap_get self ;; ret (Window.data o).

(** [w.n] *)
Definition Window_n (self : loc) : Py nat :=
  o <- heap_get self ;; ret (Window.n o).

(** *** err_out *)

Definition err_out (msg : message) : Py unit :=
  fun w => (Ok tt, World (heap w) (stdout w) (stderr w ++ [msg])).

(** *** The tests *)

(** [options]: the [argparse.Namespace] with the centerline [m] and the
    standard deviation [s]. *)
Module Namespace.
Record t : Type := mk { m : pyfloat; s : pyfloat }.
End Namespace.

(** Each factory returns its nested function [test] as a closure: below,
    [<factory>_test] is that nested function with the variables it captures
    as its first arguments. *)

Definition test_3_sigma_test (lcl ucl : pyfloat) (x : pyfloat) : Py unit :=
  if (x <? lcl)%py then
    err_out (Message "%g is < 3 sigma" [AFloat x])
  else if (x >? ucl)%py then
    err_out (Message "%g is > 3 sigma" [AFloat x])
  else ret tt.

Definition test_3_sigma (options : Namespace.t) : Py (pyfloat -> Py unit) :=
  let lcl := (Namespace.m options - of_Z 3 * Namespace.s options)%py in
  let ucl := (Namespace.m options + of_Z 3 * Namespace.s options)%py in
  ret (test_3_sigma_test lcl ucl).

Definition test_2_sigma_test (w : loc) (lcl ucl : pyfloat) (x : pyfloat) : Py unit :=
  Window_append w x ;;
  d <- Window_data w ;;
  if 2 <=? np_sum (np_gt d ucl) then
    err_out (Message "%s is 2/3 points > 2 sigma" [AArray d])
  else if 2 <=? np_sum (np_lt d lcl) then
    err_out (Message "%s is 2/3 points < 2 sigma" [AArray d])
  else ret tt.

Definition test_2_sigma (options : Namespace.t) : Py (pyfloat -> Py unit) :=
  w <- Window_init 3 (Some (Namespace.m options)) ;;
  let lcl := (Namespace.m options - of_Z 2 * Namespace.s options)%py in
  let ucl := (Namespace.m options + of_Z 2 * Namespace.s options)%py in
  ret (test_2_sigma_test w lcl ucl).

Definition test_1_sigma_test (w : loc) (lcl ucl : pyfloat) (x : pyfloat) : Py unit :=
  Window_append w x ;;
  d <- Window_data w ;;
  if 4 <=? np_sum (np_gt d ucl) then
    err_out (Message "%s is 4/5 points > 1 sigma" [AArray d])
  else if 4 <=? np_sum (np_lt d lcl) then
    err_out (Message "%s is 4/5 points < 1 sigma" [AArray d])
  else ret tt.

Definition test_1_sigma (options : Namespace.t) : Py (pyfloat -> Py unit) :=
  w <- Window_init 5 (Some (Namespace.m options)) ;;
  let lcl := (Namespace.m options - of_Z 1 * Namespace.s options)%py in
  let ucl := (Namespace.m options + of_Z 1 * Namespace.s options)%py in
  ret (test_1_sigma_test w lcl ucl).

(** The body of the loop of [test_cl_shift]'s [test], for one [(n, w)]. *)
Definition cl_shift_tier (cl x : pyfloat) (tier : nat * loc) : Py unit :=
  let '(n, w) := tier in
  Window_append w x ;;
  d <- Window_data w ;;
  if n <=? np_sum (np_gt d cl) then
    wn <- Window_n w ;;
    err_out (Message "%s is %g/%g points > centerline" [AArray d; AInt n; AInt wn])
  else if n <=? np_sum (np_lt d cl) then
    wn <- Window_n w ;;
    err_out (Message "%s is %g/%g points < centerline" [AArray d; AInt n; AInt wn])
  else ret tt.

Definition test_cl_shift_test (windows : list (nat * loc)) (cl : pyfloat)
    (x : pyfloat) : Py unit :=
  for_ windows (cl_shift_tier cl x).

Definition test_cl_shift (options : Namespace.t) : Py (pyfloat -> Py unit) :=
  w8 <- Window_init 8 (Some (Namespace.m options)) ;;
  w11 <- Window_init 11 (Some (Namespace.m options)) ;;
  w14 <- Window_init 14 (Some (Namespace.m options)) ;;
  w17 <- Window_init 17 (Some (Namespace.m options)) ;;
  w20 <- Window_init 20 (Some (Namespace.m options)) ;;
  let windows := [(8, w8); (10, w11); (12, w14); (14, w17); (16, w20)] in
  let cl := Namespace.m options in
  ret (test_cl_shift_test windows cl).

(** The three factories that compute limits, with the arithmetic of the
    interpreter: the nested functions are the same, the limits they capture
    are rounded. *)
Module Rounded.

Definition test_3_sigma (options : Namespace.t) : Py (pyfloat -> Py unit) :=
  let lcl := (Namespace.m options - of_Z 3 * Namespace.s options)%b64 in
  let ucl := (Namespace.m options + of_Z 3 * Namespace.s options)%b64 in
  ret (test_3_sigma_test lcl ucl).

Definition test_2_sigma (options : Namespace.t) : Py (pyfloat -> Py unit) :=
  w <- Window_init 3 (Some (Namespace.m options)) ;;
  let lcl := (Namespace.m options - of_Z 2 * Namespace.s options)%b64 in
  let ucl := (Namespace.m options + of_Z 2 * Namespace.s options)%b64 in
  ret (test_2_sigma_test w lcl ucl).

Definition test_1_sigma (options : Namespace.t) : Py (pyfloat -> Py unit) :=
  w <- Window_init 5 (Some (Namespace.m options)) ;;
  let lcl := (Namespace.m options - of_Z 1 * Namespace.s options)%b64 in
  let ucl := (Namespace.m options + of_Z 1 * Namespace.s options)%b64 in
  ret (test_1_sigma_test w lcl ucl).

End Rounded.

(** *** control_chart *)

(** A generator is the list of its resumptions: each runs the generator's
    loop body once and either yields a value ([Some]) or goes on to the
    next iteration ([None]). The side effects of a resumption happen when
    the consumer asks for the next value. *)
Definition generator : Type := list (Py (option pyfloat)).

(** [for x in stream: body x] *)
Fixpoint for_gen (stream : generator) (body : pyfloat -> Py unit) : Py unit :=
  match stream with
  | [] => ret tt
  | next :: stream' =>
      y <- next ;;
      match y with
      | Some x => body x
      | None => ret tt
      end ;;
      for_gen stream' body
  end.

(** [iter(xs)]: the values of a list, one by one. *)
Definition iter (xs : list pyfloat) : generator :=
  map (fun x => ret (Some x)) xs.

Definition control_chart (stream : generator) (options : Namespace.t) : Py Z :=
  let tests := [] in
  t <- test_3_sigma options ;; let tests := tests ++ [t] in
  t <- test_2_sigma options ;; let tests := tests ++ [t] in
  t <- test_1_sigma options ;; let tests := tests ++ [t] in
  t <- test_cl_shift options ;; let tests := tests ++ [t] in
  for_gen stream (fun x => for_ tests (fun test => test x)) ;;
  ret 0%Z.

(** *** Strings and [float] *)

(** Strings are texts over the code points 0 to 255. [str.strip()] removes
    the characters for which [str.isspace] holds: tab, line feed, vertical
    tab, form feed, carriage return, the separators 28 to 31, the space,
    the next-line character 133 and the no-break space 160. *)
Definition isspace (c : ascii) : bool :=
  let k := nat_of_ascii c in
  ((9 <=? k) && (k <=? 13)) || ((28 <=? k) && (k <=? 31)) || (k =? 32)
  || (k =? 133) || (k =? 160).

(** The white space that [float] ignores around a number: the same, but for
    the separators 28 to 31, which it takes for a part of the text. *)
Definition float_isspace (c : ascii) : bool :=
  let k := nat_of_ascii c in
  ((9 <=? k) && (k <=? 13)) || (k =? 32) || (k =? 133) || (k =? 160).

Fixpoint lstrip_with (p : ascii -> bool) (l : list ascii) : list ascii :=
  match l with
  | c :: l' => if p c then lstrip_with p l' else l
  | [] => []
  end.

Definition strip_with (p : ascii -> bool) (l : list ascii) : list ascii :=
  rev (lstrip_with p (rev (lstrip_with p l))).

(** [s.strip()] *)
Definition strip (s : string) : string :=
  string_of_list_ascii (strip_with isspace (list_ascii_of_string s)).

(** [s.strip(c)] for a one-character [c] *)
Definition strip_char (c : ascii) (s : string) : string :=
  string_of_list_ascii (strip_with (Ascii.eqb c) (list_ascii_of_string s)).

Definition isdigit (c : ascii) : bool :=
  let k := nat_of_ascii c in (48 <=? k) && (k <=? 57).

Definition digit_val (c : ascii) : Z := Z.of_nat (nat_of_ascii c - 48).

Definition lower (c : ascii) : ascii :=
  let k := nat_of_ascii c in
  if (65 <=? k) && (k <=? 90) then ascii_of_nat (k + 32) else c.

(** The grammar of the argument of [float], from the language reference:
<<
    sign        ::= "+" | "-"
    infinity    ::= "Infinity" | "inf"
    nan         ::= "nan"
    digitpart   ::= digit (["_"] digit)*
    number      ::= [digitpart] "." digitpart | digitpart ["."]
    exponent    ::= ("e" | "E") [sign] digitpart
    floatnumber ::= number [exponent]
    floatvalue  ::= [sign] (floatnumber | infinity | nan)
>>
    Case is not significant, white space around the value is ignored, and
    the value is the float nearest to the number written. *)

(** After a digit: [(["_"] digit)*]. Returns the digits read and the rest. *)
Fixpoint digitpart_tail (l : list ascii) : list Z * list ascii :=
  match l with
  | c :: r =>
      if isdigit c then
        let '(ds, rest) := digitpart_tail r in (digit_val c :: ds, rest)
      else if Ascii.eqb c "_" then
        match r with
        | d :: r' =>
            if isdigit d then
              let '(ds, rest) := digitpart_tail r' in (digit_val d :: ds, rest)
            else ([], l)
        | [] => ([], l)
        end
      else ([], l)
  | [] => ([], [])
  end.

Definition digitpart (l : list ascii) : option (list Z * list ascii) :=
  match l with
  | c :: r =>
      if isdigit c then
        let '(ds, rest) := digitpart_tail r in Some (digit_val c :: ds, rest)
      else None
  | [] => None
  end.

Definition sign (l : list ascii) : bool * list ascii :=
  match l with
  | c :: r =>
      if Ascii.eqb c "+" then (false, r)
      else if Ascii.eqb c "-" then (true, r)
      else (false, l)
  | [] => (false, l)
  end.

(** [number]: the digits before and after the point, and the rest. *)
Definition number (l : list ascii) : option (list Z * list Z * list ascii) :=
  match digitpart l with
  | Some (ip, rest) =>
      match rest with
      | c :: rest' =>
          if Ascii.eqb c "." then
            match digitpart rest' with
            | Some (fp, rest'') => Some (ip, fp, rest'')
            | None => Some (ip, [], rest')
            end
          else Some (ip, [], rest)
      | [] => Some (ip, [], rest)
      end
  | None =>
      match l with
      | c :: rest' =>
          if Ascii.eqb c "." then
            match digitpart rest' with
            | Some (fp, rest'') => Some ([], fp, rest'')
            | None => None
            end
          else None
      | [] => None
      end
  end.

(** [exponent], when there is one: its value and the rest. A string that
    goes on after the number with anything else is not a float. *)
Definition exponent (l : list ascii) : option Z :=
  match l with
  | [] => Some 0%Z
  | c :: r =>
      if Ascii.eqb (lower c) "e" then
        let '(neg_e, r') := sign r in
        match digitpart r' with
        | Some (ds, []) =>
            let e := fold_left (fun a d => (10 * a + d)%Z) ds 0%Z in
            Some (if neg_e then (- e)%Z else e)
        | _ => None
        end
      else None
  end.

(** The value of the decimal [digits * 10^e], exactly. *)
Definition decimal (digits : list Z) (e : Z) : Q :=
  let mant := fold_left (fun a d => (10 * a + d)%Z) digits 0%Z in
  Qred (match e with
        | Z.neg k => Qmake mant (Pos.pow 10 k)
        | _ => inject_Z (mant * 10 ^ e)
        end).

Definition float_of_string (s : string) : option pyfloat :=
  let l := strip_with float_isspace (list_ascii_of_string s) in
  let '(negative, l) := sign l in
  let word := string_of_list_ascii (map lower l) in
  if (String.eqb word "inf" || String.eqb word "infinity")%bool then
    Some (Inf negative)
  else if String.eqb word "nan" then Some NaN
  else
    match number l with
    | Some (ip, fp, rest) =>
        match exponent rest with
        | Some e =>
            let q := decimal (ip ++ fp) (e - Z.of_nat (length fp)) in
            Some (Binary64.round (if negative then - q else q))
        | None => None
        end
    | None => None
    end.

(** [float(s)] *)
Definition float (s : string) : Py pyfloat :=
  match float_of_string s with
  | Some x => ret x
  | None => raise ValueError
  end.

(** *** load_stream *)

(** The double quote character. *)
Definition dquote : ascii := ascii_of_nat 34.

(** The loop body of [load_stream] for one line of the input. *)
Definition load_line (line : string) : Py (option pyfloat) :=
  let clean_line := strip line in
  if String.eqb clean_line EmptyString then
    ret None
  else
    let clean_line :=
      match String.get 0 clean_line with
      | Some c =>
          if (Ascii.eqb c dquote || Ascii.eqb c "'")%bool
          then strip_char "'" (strip_char dquote clean_line)
          else clean_line
      | None => clean_line
      end in
    try_except
      (x <- float clean_line ;; ret (Some x))
      (fun _ => Some (err_out (Message "invalid line %r" [AStr line]) ;; ret None)).

Definition load_stream (input_stream : list string) : generator :=
  map load_line input_stream.

(** *** parse_args and main *)

(** What argparse finds on the command line, from left to right: an
    option of the parser built by [parse_args], with the value that goes
    with it, or a word that belongs to no option. How argparse tells the
    words of a command line apart (abbreviated names, [-m1], [--center=1],
    a value that starts with [-], ...) is its own matter and is not
    modelled: the command line is given as what argparse makes of it. *)
Inductive argument : Type :=
| Center (value : option string)   (* -m/--center; [None]: no value follows *)
| Stdev (value : option string)    (* -s/--stdev; [None]: no value follows *)
| Help                             (* -h/--help *)
| Unrecognized (word : string).

(** [parser.error(message)]: the usage and the message go to standard error
    and the process exits with status 2. *)
Definition parser_error {A} (usage : message) (msg : message) : Py A :=
  err_out usage ;; err_out msg ;; sys_exit 2.

(** The value of an option declared with [type=float]. *)
Definition get_value (usage : message) (flag : string) (value : option string)
  : Py pyfloat :=
  match value with
  | None =>
      parser_error usage (Message "argument %s: expected one argument" [AStr flag])
  | Some v =>
      try_except
        (float v)
        (fun _ =>
           Some (parser_error usage
                   (Message "argument %s: invalid float value: %r" [AStr flag; AStr v])))
  end.

(** [parser.print_help()] followed by [parser.exit()], the action of
    [-h/--help]. *)
Definition help_action {A} (help : message) : Py A :=
  print help ;; sys_exit 0.

(** The arguments are taken one after the other: the value of an option
    is converted when the option is met, an option given again replaces the
    earlier one, [-h] ends the process at once; [m] and [s] are the values
    seen so far, [extras] the words not recognized. *)
Fixpoint consume (usage help : message) (argv : list argument)
    (m s : option pyfloat) (extras : list string)
  : Py (option pyfloat * option pyfloat * list string) :=
  match argv with
  | [] => ret (m, s, extras)
  | Center value :: argv' =>
      x <- get_value usage "-m/--center" value ;;
      consume usage help argv' (Some x) s extras
  | Stdev value :: argv' =>
      x <- get_value usage "-s/--stdev" value ;;
      consume usage help argv' m (Some x) extras
  | Help :: _ => help_action help
  | Unrecognized word :: argv' => consume usage help argv' m s (extras ++ [word])
  end.

(** [parser.parse_args()] for the parser built by [parse_args]: both
    options are required; the missing ones are reported first, the words
    not recognized next. *)
Definition ArgumentParser_parse_args (usage help : message) (argv : list argument)
  : Py Namespace.t :=
  found <- consume usage help argv None None [] ;;
  let '(m, s, extras) := found in
  match m, s with
  | Some m, Some s =>
      match extras with
      | [] => ret (Namespace.mk m s)
      | _ :: _ =>
          parser_error usage
            (Message "unrecognized arguments: %s" [AStr (String.concat " " extras)])
      end
  | _, _ =>
      parser_error usage
        (Message "the following arguments are required: %s"
           [AStr (match m, s with
                  | None, None => "-m/--center, -s/--stdev"
                  | None, _ => "-m/--center"
                  | _, _ => "-s/--stdev"
                  end)])
  end.

(** [fname] is the file name of the script, [isatty] is
    [sys.stdin.isatty()], [argv] the command line. The text of the help is
    argparse's: the usage and the three options with their [help] strings. *)
Definition parse_args (fname : string) (isatty : bool) (argv : list argument)
  : Py Namespace.t :=
  let usage := Message "usage: cat data | python %s" [AStr fname] in
  let help :=
    Message "usage: cat data | python %s; options: %s, %s, %s"
      [AStr fname;
       AStr "-h, --help: show this help message and exit";
       AStr "-m M, --center M: control chart centerline";
       AStr "-s S, --stdev S: standard deviation"] in
  if isatty then
    print usage ;;
    print (Message "for more help use --help" []) ;;
    sys_exit 1
  else ArgumentParser_parse_args usage help argv.

Definition main (fname : string) (isatty : bool) (argv : list argument)
    (stdin : list string) : Py Z :=
  options <- parse_args fname isatty argv ;;
  control_chart (load_stream stdin) options.

(** [exit(main())] *)
Definition script (fname : string) (isatty : bool) (argv : list argument)
    (stdin : list string) : Py unit :=
  code <- main fname isatty argv stdin ;;
  sys_exit code.

(** The exit status of the process, from the way the script ends. *)
Definition exit_status {A} (r : result A) : Z :=
  match r with
  | Ok _ => 0
  | Raise (SystemExit code) => code
  | Raise _ => 1
  end.

(** The world at the start of the process. *)
Definition boot : world := World [] [] [].

(** ** What the operations compute *)

(** The window object after [append(v)], when its array is not empty. *)
Definition win_append (o : Window.t) (v : pyfloat) : Window.t :=
  if Window.idx o <? length (Window.data o) then
    Window.mk (Window.idx o + 1) (Window.n o) (<[Window.idx o := v]> (Window.data o))
  else
    Window.mk 1 (Window.n o) (<[0 := v]> (Window.data o)).

(** The lines a test writes once the value is in the window. *)
Definition sigma3_lines (lcl ucl x : pyfloat) : list message :=
  if (x <? lcl)%py then [Message "%g is < 3 sigma" [AFloat x]]
  else if (x >? ucl)%py then [Message "%g is > 3 sigma" [AFloat x]]
  else [].

Definition sigma2_lines (lcl ucl : pyfloat) (d : list pyfloat) : list message :=
  if 2 <=? np_sum (np_gt d ucl) then [Message "%s is 2/3 points > 2 sigma" [AArray d]]
  else if 2 <=? np_sum (np_lt d lcl) then [Message "%s is 2/3 points < 2 sigma" [AArray d]]
  else [].

Definition sigma1_lines (lcl ucl : pyfloat) (d : list pyfloat) : list message :=
  if 4 <=? np_sum (np_gt d ucl) then [Message "%s is 4/5 points > 1 sigma" [AArray d]]
  else if 4 <=? np_sum (np_lt d lcl) then [Message "%s is 4/5 points < 1 sigma" [AArray d]]
  else [].

Definition tier_lines (cl : pyfloat) (n : nat) (o : Window.t) : list message :=
  let d := Window.data o in
  if n <=? np_sum (np_gt d cl) then
    [Message "%s is %g/%g points > centerline" [AArray d; AInt n; AInt (Window.n o)]]
  else if n <=? np_sum (np_lt d cl) then
    [Message "%s is %g/%g points < centerline" [AArray d; AInt n; AInt (Window.n o)]]
  else [].

(** The tiers of a centerline-shift test whose windows lie next to each
    other in the heap, from location [l] on. *)
Fixpoint tiers_at (ns : list nat) (l : loc) : list (nat * loc) :=
  match ns with
  | [] => []
  | n :: ns' => (n, l) :: tiers_at ns' (S l)
  end.

Fixpoint tiers_lines (cl : pyfloat) (ns : list nat) (os : list Window.t) : list message :=
  match ns, os with
  | n :: ns', o :: os' => tier_lines cl n o ++ tiers_lines cl ns' os'
  | _, _ => []
  end.

Definition nonempty (o : Window.t) : Prop := 0 < length (Window.data o).

(** *** The engine: the windows of the four tests, in heap order *)

Record engine : Type := Engine {
  e2 : Window.t;              (* of test_2_sigma *)
  e1 : Window.t;              (* of test_1_sigma *)
  eshift : list Window.t      (* of test_cl_shift *)
}.

Definition engine_heap (e : engine) : list Window.t := e2 e :: e1 e :: eshift e.

Definition engine_feed (e : engine) (x : pyfloat) : engine :=
  Engine (win_append (e2 e) x) (win_append (e1 e) x)
         (map (fun o => win_append o x) (eshift e)).

(** The limits [k] standard deviations away from the centerline, computed
    without rounding. *)
Definition limit (options : Namespace.t) (k : Z) : pyfloat * pyfloat :=
  ((Namespace.m options - of_Z k * Namespace.s options)%py,
   (Namespace.m options + of_Z k * Namespace.s options)%py).

Definition thresholds : list nat := [8; 10; 12; 14; 16].
Definition sizes : list nat := [8; 11; 14; 17; 20].

(** The lines written for [x], from the engine that already holds [x]. *)
Definition engine_lines (options : Namespace.t) (e : engine) (x : pyfloat) : list message :=
  sigma3_lines (limit options 3).1 (limit options 3).2 x
  ++ sigma2_lines (limit options 2).1 (limit options 2).2 (Window.data (e2 e))
  ++ sigma1_lines (limit options 1).1 (limit options 1).2 (Window.data (e1 e))
  ++ tiers_lines (Namespace.m options) thresholds (eshift e).

(** The list [tests] of [control_chart] when the windows start at [l]. *)
Definition engine_tests (options : Namespace.t) (l : loc) : list (pyfloat -> Py unit) :=
  [ test_3_sigma_test (limit options 3).1 (limit options 3).2;
    test_2_sigma_test l (limit options 2).1 (limit options 2).2;
    test_1_sigma_test (S l) (limit options 1).1 (limit options 1).2;
    test_cl_shift_test (tiers_at thresholds (S (S l))) (Namespace.m options) ].

Definition good (e : engine) : Prop :=
  nonempty (e2 e) /\ nonempty (e1 e) /\ Forall nonempty (eshift e)
  /\ length (eshift e) = 5.

(** *** Streams *)

(** What a resumption does: the value it yields (if any) and the lines it
    writes to standard error; it touches nothing else. *)
Definition yields (next : Py (option pyfloat)) (ev : option pyfloat * list message)
  : Prop :=
  forall h so se, next (World h so se) = (Ok ev.1, World h so (se ++ ev.2)).

(** The engine and the lines written, after a sequence of events. *)
Fixpoint engine_trace (options : Namespace.t) (e : engine)
    (events : list (option pyfloat * list message)) : engine * list message :=
  match events with
  | [] => (e, [])
  | (Some x, msgs) :: rest =>
      let e1 := engine_feed e x in
      let '(e', log) := engine_trace options e1 rest in
      (e', msgs ++ engine_lines options e1 x ++ log)
  | (None, msgs) :: rest =>
      let '(e', log) := engine_trace options e rest in
      (e', msgs ++ log)
  end.

(** A window as [Window(n, init=m)] creates it. *)
Definition fresh (n : nat) (m : pyfloat) : Window.t := Window.mk 0 n (replicate n m).

Definition engine_fresh (options : Namespace.t) : engine :=
  Engine (fresh 3 (Namespace.m options)) (fresh 5 (Namespace.m options))
         (map (fun n => fresh n (Namespace.m options)) sizes).

(** The window after the values [xs] have been appended to a fresh one. *)
Definition fed (n : nat) (m : pyfloat) (xs : list pyfloat) : Window.t :=
  fold_left win_append xs (fresh n m).

(** The events of [iter xs] and of [load_stream input_stream]. *)
Definition value_events (xs : list pyfloat) : list (option pyfloat * list message) :=
  map (fun x => (Some x, [])) xs.

Definition line_event (line : string) : option pyfloat * list message :=
  match load_line line (World [] [] []) with
  | (Ok y, w) => (y, stderr w)
  | (Raise _, w) => (None, stderr w)
  end.

Definition line_events (input_stream : list string)
  : list (option pyfloat * list message) :=
  map line_event input_stream.

(** The values among the events, in order. *)
Definition values (events : list (option pyfloat * list message)) : list pyfloat :=
  omap fst events.

(** *** Running a part of the program *)

(** The usage of the class docstring:
    [w = Window(n, init); for x in xs: w.append(x)], then the object. *)
Definition Window_feed (n : nat) (init : option pyfloat) (xs : list pyfloat)
  : Py Window.t :=
  w <- Window_init n init ;;
  for_ xs (Window_append w) ;;
  heap_get w.

(** [test = factory(options); for x in xs: test(x)] *)
Definition feed (factory : Namespace.t -> Py (pyfloat -> Py unit))
    (options : Namespace.t) (xs : list pyfloat) : Py unit :=
  test <- factory options ;;
  for_ xs test.

(** [list(stream)] *)
Fixpoint drain (stream : generator) : Py (list pyfloat) :=
  match stream with
  | [] => ret []
  | next :: stream' =>
      y <- next ;;
      rest <- drain stream' ;;
      ret (match y with Some x => x :: rest | None => rest end)
  end.

(** The windows of [control_chart], with the values appended and nothing
    else done. *)
Definition windows_only (options : Namespace.t) (xs : list pyfloat) : Py unit :=
  w3 <- Window_init 3 (Some (Namespace.m options)) ;;
  w5 <- Window_init 5 (Some (Namespace.m options)) ;;
  w8 <- Window_init 8 (Some (Namespace.m options)) ;;
  w11 <- Window_init 11 (Some (Namespace.m options)) ;;
  w14 <- Window_init 14 (Some (Namespace.m options)) ;;
  w17 <- Window_init 17 (Some (Namespace.m options)) ;;
  w20 <- Window_init 20 (Some (Namespace.m options)) ;;
  for_ xs (fun x => for_ [w3; w5; w8; w11; w14; w17; w20] (fun w => Window_append w x)).

(** The lines a computation adds to standard error. *)
Definition written {A} (c : Py A) (w : world) : list message :=
  drop (length (stderr w)) (stderr (c w).2).

(** ** A reference ring buffer

    The rolling window as the specification words it: a buffer of
    [capacity] slots and a write cursor; [append] stores the value at the
    cursor and advances the cursor modulo the capacity. *)
Module Ring.
Record t : Type := mk { capacity : nat; buffer : list pyfloat; writeCursor : nat }.

Definition init (capacity : nat) (fill : pyfloat) : t :=
  mk capacity (replicate capacity fill) 0.

Definition append (r : t) (value : pyfloat) : t :=
  mk (capacity r)
     (<[writeCursor r := value]> (buffer r))
     ((writeCursor r + 1) `mod` capacity r).

Definition appends (r : t) (xs : list pyfloat) : t := fold_left append xs r.

(** The entries from the oldest to the newest: the cursor is on the oldest. *)
Definition chrono (r : t) : list pyfloat :=
  drop (writeCursor r) (buffer r) ++ take (writeCursor r) (buffer r).
End Ring.

(** ** Notions used in the statements *)

(** The lines a test with one window writes while the values [xs] are fed,
    [lines] being what it writes once a value is in the window. *)
Fixpoint window_trace (lines : Window.t -> list message) (o : Window.t)
    (xs : list pyfloat) : list message :=
  match xs with
  | [] => []
  | x :: xs' => lines (win_append o x) ++ window_trace lines (win_append o x) xs'
  end.

(** The same for the centerline-shift test and its windows [os]. *)
Fixpoint shift_trace (cl : pyfloat) (os : list Window.t) (xs : list pyfloat)
  : list message :=
  match xs with
  | [] => []
  | x :: xs' =>
      let os' := map (fun o => win_append o x) os in
      tiers_lines cl thresholds os' ++ shift_trace cl os' xs'
  end.

(** A test that appends to the window at [l] and then writes [lines]. *)
Definition window_test (test : pyfloat -> Py unit) (lines : Window.t -> list message)
    (l : loc) : Prop :=
  forall hL hR o so se x,
    l = length hL -> nonempty o ->
    test x (World (hL ++ o :: hR) so se)
    = (Ok tt, World (hL ++ win_append o x :: hR) so (se ++ lines (win_append o x))).

(** The window object and the ring buffer hold the same entries, and the
    cursor of the window is the cursor of the ring, or one past the last
    slot where the ring has already wrapped to 0. *)
Definition sim (o : Window.t) (r : Ring.t) : Prop :=
  Window.data o = Ring.buffer r
  /\ length (Ring.buffer r) = Ring.capacity r
  /\ Ring.writeCursor r < Ring.capacity r
  /\ (Window.idx o = Ring.writeCursor r
      \/ (Window.idx o = Ring.capacity r /\ Ring.writeCursor r = 0)).

(** A value that is on neither side: not above [ucl], not below [lcl]. *)
Definition inside (lcl ucl : pyfloat) (x : pyfloat) : Prop :=
  (x >? ucl)%py = false /\ (x <? lcl)%py = false.

(** The initial value of the slots of a test's windows is neutral: while a
    window (of one of the sizes [ns]) is not full it holds the values fed
    followed by the initial value, the slots not written yet are counted on
    neither side, and the test writes nothing as long as no value fed is
    above [ucl] or below [lcl]. *)
Definition padding_neutral (factory : Namespace.t -> Py (pyfloat -> Py unit))
    (options : Namespace.t) (ns : list nat) (lcl ucl : pyfloat) : Prop :=
  forall xs h so se, exists log,
    feed factory options xs (World h so se)
    = (Ok tt,
       World (h ++ map (fun n => fed n (Namespace.m options) xs) ns) so (se ++ log))
    /\ (forall n, n ∈ ns -> length xs < n ->
        let d := Window.data (fed n (Namespace.m options) xs) in
        d = xs ++ replicate (n - length xs) (Namespace.m options)
        /\ np_sum (np_gt d ucl) = np_sum (np_gt xs ucl)
        /\ np_sum (np_lt d lcl) = np_sum (np_lt xs lcl))
    /\ (Forall (inside lcl ucl) xs -> log = []).

(** The kinds of arguments. *)
Definition is_center (a : argument) : bool :=
  match a with Center _ => true | _ => false end.

Definition is_stdev (a : argument) : bool :=
  match a with Stdev _ => true | _ => false end.

Definition is_help (a : argument) : bool :=
  match a with Help => true | _ => false end.

(** ** Notions used in further statements *)

(** The latest [n] entries after the values [xs], oldest first, for a
    window whose slots started as [m]. *)
Definition latest (n : nat) (m : pyfloat) (xs : list pyfloat) : list pyfloat :=
  drop (length xs) (replicate n m ++ xs).

(** What a test "[k] out of the recent values" writes: the line [above]
    when at least [k] of them are above [ucl], else the line [below] when
    at least [k] are below [lcl]. *)
Definition fires (k : nat) (above below : message) (lcl ucl : pyfloat)
    (recent : list pyfloat) : list message :=
  if k <=? np_sum (np_gt recent ucl) then [above]
  else if k <=? np_sum (np_lt recent lcl) then [below]
  else [].

(** A line that is not blank: [clean_line] is not empty. *)
Definition nonblank (line : string) : bool :=
  negb (String.eqb (strip line) EmptyString).

(** The message of [load_stream] for a line that is not a number. *)
Definition invalid_line (msg : message) : bool :=
  String.eqb (fmt msg) "invalid line %r".

(** ** ExponentialDistribution/fit-in-py.py and plot-in-py.py

    The two scripts start alike: a guard on standard input and the reading
    of the data. What follows the reading (the fit, the histogram) is
    outside the model. *)

(** [sys.stderr.write(line)], for a string that ends with a newline. *)
Definition sys_stderr_write (line : message) : Py unit :=
  fun w => (Ok tt, World (heap w) (stdout w) (stderr w ++ [line])).

(** The list comprehension [[f(x) for x in l]]. *)
Fixpoint comprehension {A B} (f : A -> Py B) (l : list A) : Py (list B) :=
  match l with
  | [] => ret []
  | x :: l' =>
      y <- f x ;;
      ys <- comprehension f l' ;;
      ret (y :: ys)
  end.

(** [file] is [__file__], [isatty] is [sys.stdin.isatty()]; the result is
    the content of the array [x]. *)
Definition read_data (file : string) (isatty : bool) (stdin : list string)
  : Py (list pyfloat) :=
  (if isatty then
     sys_stderr_write (Message "usage: cat data.log | python %s" [AStr file]) ;;
     sys_exit 1
   else ret tt) ;;
  comprehension (fun line => float (strip line)) stdin.

(** * Proofs *)

(** ** The order on numbers *)

Ltac q_cases :=
  repeat match goal with
  | |- context [Qcompare ?a ?b] => destruct (Qcompare_spec a b)
  | H : context [Qcompare ?a ?b] |- _ => destruct (Qcompare_spec a b)
  end.

Ltac py_order :=
  unfold gtb, sub, mul_inf, Qsign, of_Z in *; simpl in *;
  q_cases; simpl in *; change (inject_Z 0) with 0%Q in *;
  try discriminate; try reflexivity; try congruence;
  try (exfalso; lra); try (exfalso; nra).

Lemma ltb_irrefl x : (x <? x)%py = false.
Proof. destruct x as [|[]|q]; py_order. Qed.

Lemma ltb_asym x y : (x <? y)%py = true -> (y <? x)%py = false.
Proof. destruct x as [|[]|p], y as [|[]|q]; py_order. Qed.

Lemma leb_not_ltb x y : (x <=? y)%py = true -> (y <? x)%py = false.
Proof. destruct x as [|[]|p], y as [|[]|q]; py_order. Qed.

Lemma ltb_trans x y z : (x <? y)%py = true -> (y <? z)%py = true -> (x <? z)%py = true.
Proof. destruct x as [|[]|p], y as [|[]|q], z as [|[]|r]; py_order. Qed.


Lemma mul_of_Z_pos (k : Z) (s : pyfloat) :
  (0 < k)%Z ->
  (of_Z k * s)%py =
  match s with
  | NaN => NaN
  | Inf t => Inf t
  | Fin q => Fin (inject_Z k * q)
  end.
Proof.
  intros Hk.
  assert (0 < inject_Z k)%Q by (change 0%Q with (inject_Z 0); rewrite <- Zlt_Qlt; lia).
  destruct s as [|t|q]; try reflexivity.
  unfold of_Z, mul, mul_inf, Qsign. destruct (Qcompare_spec (inject_Z k) 0); try lra.
  reflexivity.
Qed.



(** ** Rounding

    What is needed of rounding is that it keeps the order of the numbers. *)

Lemma pow2_pos k : (0 < Binary64.pow2 k)%Q.
Proof. apply Qpower_0_lt. reflexivity. Qed.

Lemma pow2_add a b : (Binary64.pow2 (a + b) == Binary64.pow2 a * Binary64.pow2 b)%Q.
Proof. apply Qpower_plus. discriminate. Qed.

Lemma pow2_le a b : (a <= b)%Z -> (Binary64.pow2 a <= Binary64.pow2 b)%Q.
Proof. intros H. apply Qpower_le_compat_l; [exact H|discriminate]. Qed.

Lemma pow2_lt_inv a b : (Binary64.pow2 a < Binary64.pow2 b)%Q -> (a < b)%Z.
Proof. intros H. apply (Qpower_lt_compat_l_inv 2); [exact H|reflexivity]. Qed.

Lemma pow2_Z k : (0 <= k)%Z -> (Binary64.pow2 k == inject_Z (2 ^ k))%Q.
Proof. intros H. symmetry. apply (Zpower_Qpower 2 k H). Qed.

Lemma rne_Z n : Binary64.rne (inject_Z n) = n.
Proof.
  unfold Binary64.rne. rewrite Qfloor_Z.
  destruct (Qcompare_spec (inject_Z n - inject_Z n) (1 # 2)) as [H|H|H]; try lra.
  reflexivity.
Qed.

Lemma rne_mono x y : (x <= y)%Q -> (Binary64.rne x <= Binary64.rne y)%Z.
Proof.
  intros Hxy. pose proof (Qfloor_resp_le x y Hxy) as Hf.
  assert (Binary64.rne x <= Qfloor x + 1)%Z as Hx.
  { unfold Binary64.rne. repeat case_match; lia. }
  assert (Qfloor y <= Binary64.rne y)%Z as Hy.
  { unfold Binary64.rne. repeat case_match; lia. }
  destruct (Z.eq_dec (Qfloor x) (Qfloor y)) as [He|Hne]; [|lia].
  unfold Binary64.rne. rewrite <- He.
  destruct (Qcompare_spec (x - inject_Z (Qfloor x)) (1 # 2)) as [H1|H1|H1];
    destruct (Qcompare_spec (y - inject_Z (Qfloor x)) (1 # 2)) as [H2|H2|H2];
    try lra; try lia; destruct (Z.even (Qfloor x)); lia.
Qed.

Lemma ilog2_spec q :
  (0 < q)%Q ->
  (Binary64.pow2 (Binary64.ilog2 q) <= q)%Q
  /\ (q < Binary64.pow2 (Binary64.ilog2 q + 1))%Q.
Proof.
  intros Hq. unfold Binary64.ilog2.
  set (n := Qnum q). set (d := Z.pos (Qden q)).
  assert (0 < n)%Z as Hn.
  { unfold Qlt in Hq. simpl in Hq. subst n. lia. }
  assert (0 < d)%Z as Hd by (subst d; lia).
  destruct (Z.log2_spec n Hn) as [Hn1 Hn2]. destruct (Z.log2_spec d Hd) as [Hd1 Hd2].
  set (a := Z.log2 n) in *. set (b := Z.log2 d) in *.
  assert (0 <= a)%Z as Ha by apply Z.log2_nonneg.
  assert (0 <= b)%Z as Hb by apply Z.log2_nonneg.
  assert (q * inject_Z d == inject_Z n)%Q as Hqd.
  { subst n d. unfold Qeq, Qmult, inject_Z. simpl. lia. }
  pose proof (pow2_pos b) as Pb. pose proof (pow2_pos (b + 1)) as Pb1.
  assert (Binary64.pow2 b <= inject_Z d)%Q as Bd.
  { rewrite (pow2_Z b Hb). rewrite <- Zle_Qle. exact Hd1. }
  assert (inject_Z d < Binary64.pow2 (b + 1))%Q as Bd1.
  { rewrite (pow2_Z (b + 1)) by lia. rewrite <- Zlt_Qlt.
    replace (b + 1)%Z with (Z.succ b) by lia. exact Hd2. }
  assert (Binary64.pow2 a <= inject_Z n)%Q as An.
  { rewrite (pow2_Z a Ha). rewrite <- Zle_Qle. exact Hn1. }
  assert (inject_Z n < Binary64.pow2 (a + 1))%Q as An1.
  { rewrite (pow2_Z (a + 1)) by lia. rewrite <- Zlt_Qlt.
    replace (a + 1)%Z with (Z.succ a) by lia. exact Hn2. }
  assert (0 < inject_Z d)%Q as Hd' by lra.
  assert (q < Binary64.pow2 (a - b + 1))%Q as Hup.
  { pose proof (pow2_add (a - b + 1) b) as E.
    replace (a - b + 1 + b)%Z with (a + 1)%Z in E by lia.
    pose proof (pow2_pos (a - b + 1)) as P. nra. }
  assert (Binary64.pow2 (a - b - 1) <= q)%Q as Hlow.
  { pose proof (pow2_add (a - b - 1) (b + 1)) as E.
    replace (a - b - 1 + (b + 1))%Z with a in E by lia.
    pose proof (pow2_pos (a - b - 1)) as P. nra. }
  destruct (Qle_bool (Binary64.pow2 (a - b)) q) eqn:Hc.
  - apply Qle_bool_iff in Hc. split; [exact Hc|exact Hup].
  - assert (~ (Binary64.pow2 (a - b) <= q)%Q) as Hc'.
    { intros H. apply Qle_bool_iff in H. congruence. }
    split; [exact Hlow|]. replace (a - b - 1 + 1)%Z with (a - b)%Z by lia. lra.
Qed.

Lemma rne_le_Z x n : (x <= inject_Z n)%Q -> (Binary64.rne x <= n)%Z.
Proof. intros H. apply rne_mono in H. by rewrite rne_Z in H. Qed.

Lemma rne_ge_Z x n : (inject_Z n <= x)%Q -> (n <= Binary64.rne x)%Z.
Proof. intros H. apply rne_mono in H. by rewrite rne_Z in H. Qed.

Lemma rne_comp x y : (x == y)%Q -> Binary64.rne x = Binary64.rne y.
Proof.
  intros E. apply Z.le_antisymm; apply rne_mono; rewrite E; apply Qle_refl.
Qed.

Lemma rne_nonneg x : (0 <= x)%Q -> (0 <= Binary64.rne x)%Z.
Proof. intros H. by apply rne_ge_Z. Qed.

Lemma nearest_nonneg q : (0 <= q)%Q -> (0 <= Binary64.nearest q)%Q.
Proof.
  intros Hq. unfold Binary64.nearest.
  pose proof (pow2_pos (Binary64.ulp_exponent q)) as P.
  assert (0 <= q / Binary64.pow2 (Binary64.ulp_exponent q))%Q as Hx.
  { apply Qle_shift_div_l; [exact P|lra]. }
  apply rne_nonneg in Hx. rewrite Zle_Qle in Hx.
  apply Qmult_le_0_compat; [exact Hx|lra].
Qed.

Lemma nearest_zero q : (q == 0)%Q -> (Binary64.nearest q == 0)%Q.
Proof.
  intros Hq. unfold Binary64.nearest.
  pose proof (pow2_pos (Binary64.ulp_exponent q)) as P.
  assert (Binary64.rne (q / Binary64.pow2 (Binary64.ulp_exponent q)) = 0%Z) as ->.
  { assert (q / Binary64.pow2 (Binary64.ulp_exponent q) == inject_Z 0)%Q as E.
    { generalize (Binary64.pow2 (Binary64.ulp_exponent q)). intros r.
      rewrite Hq. unfold Qdiv. change (inject_Z 0) with 0%Q. ring. }
    rewrite (rne_comp _ _ E). apply rne_Z. }
  ring.
Qed.

Lemma nearest_mono p q :
  (0 <= p)%Q -> (p <= q)%Q -> (Binary64.nearest p <= Binary64.nearest q)%Q.
Proof.
  intros Hp Hpq.
  destruct (Qlt_le_dec 0 p) as [Hpos|Hzero].
  2:{ rewrite (nearest_zero p) by lra. apply nearest_nonneg. lra. }
  assert (0 < q)%Q as Hq by lra.
  destruct (ilog2_spec p Hpos) as [Lp Up]. destruct (ilog2_spec q Hq) as [Lq Uq].
  unfold Binary64.nearest, Binary64.ulp_exponent.
  set (lp := Binary64.ilog2 p) in *. set (lq := Binary64.ilog2 q) in *.
  assert (lp <= lq)%Z as Hl.
  { assert (lp < lq + 1)%Z; [|lia]. apply pow2_lt_inv. lra. }
  set (ep := Z.max (lp - 52) (-1074)). set (eq := Z.max (lq - 52) (-1074)).
  pose proof (pow2_pos ep) as Pp. pose proof (pow2_pos eq) as Pq.
  destruct (Z.eq_dec ep eq) as [He|Hne].
  - rewrite <- He.
    assert (p / Binary64.pow2 ep <= q / Binary64.pow2 ep)%Q as Hx.
    { apply Qle_shift_div_l; [exact Pp|]. unfold Qdiv. rewrite <- Qmult_assoc.
      rewrite (Qmult_comm (/ _)), Qmult_inv_r by lra. lra. }
    apply rne_mono in Hx. rewrite Zle_Qle in Hx.
    apply Qmult_le_compat_r; [exact Hx|lra].
  - assert (ep < eq)%Z as Hlt by lia.
    assert (eq = lq - 52)%Z as Heq by lia.
    assert (lp + 1 <= lq)%Z as Hl1 by lia.
    assert (0 <= lq - ep)%Z as Hd by lia.
    (* [2^lq] lies between the two rounded numbers *)
    apply (Qle_trans _ (Binary64.pow2 lq)).
    + pose proof (pow2_add (lq - ep) ep) as E.
      replace (lq - ep + ep)%Z with lq in E by lia.
      rewrite E. apply Qmult_le_compat_r; [|lra].
      rewrite (pow2_Z _ Hd). rewrite <- Zle_Qle.
      apply rne_le_Z. rewrite <- (pow2_Z _ Hd).
      apply Qle_shift_div_r; [exact Pp|]. rewrite <- E.
      pose proof (pow2_le (lp + 1) lq Hl1). lra.
    + pose proof (pow2_add 52 eq) as E.
      replace (52 + eq)%Z with lq in E by lia.
      rewrite E. apply Qmult_le_compat_r; [|lra].
      rewrite (pow2_Z 52) by lia. rewrite <- Zle_Qle.
      apply rne_ge_Z. rewrite <- (pow2_Z 52) by lia.
      apply Qle_shift_div_l; [exact Pq|]. rewrite <- E. exact Lq.
Qed.

(** Rounding is monotone. *)
Lemma round_mono p q :
  (p <= q)%Q -> (Binary64.round p <=? Binary64.round q)%py = true.
Proof.
  intros Hpq. unfold Binary64.round.
  pose proof (nearest_nonneg (Qabs p) (Qabs_nonneg p)) as Np.
  pose proof (nearest_nonneg (Qabs q) (Qabs_nonneg q)) as Nq.
  pose proof (pow2_pos 1024) as P.
  destruct (Qcompare_spec p 0) as [Hp|Hp|Hp];
    destruct (Qcompare_spec q 0) as [Hq|Hq|Hq]; try lra.
  all: destruct (Qle_bool (Binary64.pow2 1024) (Binary64.nearest (Qabs p))) eqn:Op;
    destruct (Qle_bool (Binary64.pow2 1024) (Binary64.nearest (Qabs q))) eqn:Oq;
    simpl; try reflexivity.
  all: try (apply Qle_bool_iff in Op); try (apply Qle_bool_iff in Oq).
  all: try (assert (~ (Binary64.pow2 1024 <= Binary64.nearest (Qabs p))%Q) as Op'
              by (intros H; apply Qle_bool_iff in H; congruence)).
  all: try (assert (~ (Binary64.pow2 1024 <= Binary64.nearest (Qabs q))%Q) as Oq'
              by (intros H; apply Qle_bool_iff in H; congruence)).
  all: rewrite ?Qred_correct.
  all: try (assert (Binary64.nearest (Qabs p) <= Binary64.nearest (Qabs q))%Q as Hm
              by (apply nearest_mono; [apply Qabs_nonneg|];
                  rewrite ?(Qabs_pos p), ?(Qabs_pos q) by lra; lra)).
  all: try (assert (Binary64.nearest (Qabs q) <= Binary64.nearest (Qabs p))%Q as Hm
              by (apply nearest_mono; [apply Qabs_nonneg|];
                  rewrite ?(Qabs_neg p), ?(Qabs_neg q) by lra; lra)).
  all: try (match goal with
            | |- context [Qcompare ?a ?b] => destruct (Qcompare_spec a b)
            end; try reflexivity; exfalso; lra).
  all: try (exfalso; lra).
Qed.

(** *** The floats

    Rounding gives a multiple of the last bit within half a bit of the
    number, and leaves a float as it is. *)

(** The rounded number is within half a bit of the number. *)
Lemma rne_near x : (Qabs (inject_Z (Binary64.rne x) - x) <= 1 # 2)%Q.
Proof.
  unfold Binary64.rne.
  pose proof (Qfloor_le x) as Hlo. pose proof (Qlt_floor x) as Hhi.
  rewrite inject_Z_plus in Hhi. change (inject_Z 1) with 1%Q in Hhi.
  apply Qabs_Qle_condition.
  destruct (Qcompare_spec (x - inject_Z (Qfloor x)) (1 # 2)) as [H|H|H];
    [destruct (Z.even (Qfloor x))| |];
    rewrite ?inject_Z_plus; change (inject_Z 1) with 1%Q; split; lra.
Qed.

Lemma nearest_near q :
  (Qabs (Binary64.nearest q - q)
   <= (1 # 2) * Binary64.pow2 (Binary64.ulp_exponent q))%Q.
Proof.
  unfold Binary64.nearest.
  set (e := Binary64.ulp_exponent q). pose proof (pow2_pos e) as P.
  pose proof (rne_near (q / Binary64.pow2 e)) as H.
  apply Qabs_Qle_condition in H. destruct H as [H1 H2].
  assert (q / Binary64.pow2 e * Binary64.pow2 e == q)%Q as E by (field; lra).
  set (n := inject_Z (Binary64.rne (q / Binary64.pow2 e))) in *.
  set (y := (q / Binary64.pow2 e)%Q) in *.
  apply Qabs_Qle_condition. split; nra.
Qed.

Lemma ilog2_unique q k :
  (0 < q)%Q -> (Binary64.pow2 k <= q)%Q -> (q < Binary64.pow2 (k + 1))%Q ->
  Binary64.ilog2 q = k.
Proof.
  intros Hq Hlo Hhi. destruct (ilog2_spec q Hq) as [Lq Uq].
  assert (k < Binary64.ilog2 q + 1)%Z by (apply pow2_lt_inv; lra).
  assert (Binary64.ilog2 q < k + 1)%Z by (apply pow2_lt_inv; lra).
  lia.
Qed.

Lemma nearest_comp p q :
  (0 <= p)%Q -> (p == q)%Q -> (Binary64.nearest p == Binary64.nearest q)%Q.
Proof.
  intros Hp E. apply Qle_antisym; apply nearest_mono; lra.
Qed.

(** The significand has at most 53 bits, or is [2^53] when the number is
    rounded up to the next power of 2. *)
Lemma significand_bound q :
  (0 <= q)%Q ->
  (0 <= Binary64.rne (q / Binary64.pow2 (Binary64.ulp_exponent q)) <= 2 ^ 53)%Z.
Proof.
  intros Hq. pose proof (pow2_pos (Binary64.ulp_exponent q)) as P. split.
  - apply rne_nonneg. apply Qle_shift_div_l; [exact P|lra].
  - apply rne_le_Z. apply Qle_shift_div_r; [exact P|].
    destruct (Qlt_le_dec 0 q) as [Hpos|Hzero].
    + destruct (ilog2_spec q Hpos) as [_ Uq].
      unfold Binary64.ulp_exponent in *. set (l := Binary64.ilog2 q) in *.
      set (e := Z.max (l - 52) (-1074)) in *.
      rewrite <- (pow2_Z 53) by lia.
      pose proof (pow2_add 53 e) as E. rewrite <- E.
      pose proof (pow2_le (l + 1) (53 + e) ltac:(lia)). lra.
    + assert (0 < inject_Z (2 ^ 53))%Q by (rewrite <- (pow2_Z 53) by lia; apply pow2_pos).
      nra.
Qed.

(** A multiple of a bit that is not below [2^-1074], with a significand of
    at most 53 bits (or [2^53]), is left as it is. *)
Lemma nearest_fixed n e :
  (0 <= n <= 2 ^ 53)%Z -> (-1074 <= e)%Z ->
  (Binary64.nearest (inject_Z n * Binary64.pow2 e) == inject_Z n * Binary64.pow2 e)%Q.
Proof.
  intros [Hn0 Hn] He. pose proof (pow2_pos e) as Pe.
  destruct (Z.eq_dec n 0%Z) as [->|Hne].
  { rewrite nearest_zero; ring. }
  assert (0 < n)%Z as Hpos by lia.
  destruct (Z.log2_spec n Hpos) as [L1 L2]. set (b := Z.log2 n) in *.
  assert (0 <= b)%Z as Hb by apply Z.log2_nonneg.
  assert (b <= 53)%Z as Hb53.
  { destruct (Z_le_gt_dec b 53) as [|Hgt]; [done|].
    assert (2 ^ 54 <= 2 ^ b)%Z by (apply Z.pow_le_mono_r; lia). lia. }
  set (a := (inject_Z n * Binary64.pow2 e)%Q).
  assert (0 < a)%Q as Ha.
  { subst a. apply Qmult_lt_0_compat; [|exact Pe].
    change 0%Q with (inject_Z 0). rewrite <- Zlt_Qlt. lia. }
  assert (Binary64.ilog2 a = b + e)%Z as Hl.
  { apply ilog2_unique; [exact Ha| |]; subst a.
    - rewrite pow2_add. apply Qmult_le_compat_r; [|lra].
      rewrite (pow2_Z b Hb). rewrite <- Zle_Qle. exact L1.
    - replace (b + e + 1)%Z with (b + 1 + e)%Z by lia. rewrite pow2_add.
      apply Qmult_lt_compat_r; [exact Pe|].
      rewrite (pow2_Z (b + 1)) by lia. rewrite <- Zlt_Qlt.
      replace (b + 1)%Z with (Z.succ b) by lia. exact L2. }
  unfold Binary64.nearest, Binary64.ulp_exponent. rewrite Hl.
  set (e' := Z.max (b + e - 52) (-1074)).
  pose proof (pow2_pos e') as Pe'.
  destruct (Z_le_gt_dec e' e) as [Hle|Hgt].
  - (* the last bit is not above the bit of [a] *)
    assert (a / Binary64.pow2 e' == inject_Z (n * 2 ^ (e - e')))%Q as E.
    { subst a. rewrite inject_Z_mult, <- (pow2_Z (e - e')) by lia.
      pose proof (pow2_add (e - e') e') as E'.
      replace (e - e' + e')%Z with e in E' by lia. rewrite E'. field. lra. }
    rewrite (rne_comp _ _ E), rne_Z.
    rewrite inject_Z_mult, <- (pow2_Z (e - e')) by lia.
    pose proof (pow2_add (e - e') e') as E'.
    replace (e - e' + e')%Z with e in E' by lia. subst a. rewrite E'. ring.
  - (* the significand is [2^53] *)
    assert (b = 53)%Z as Hb' by lia.
    assert (e' = e + 1)%Z as He' by lia.
    assert (n = 2 ^ 53)%Z as Hn' by (rewrite Hb' in L1; lia).
    assert (a / Binary64.pow2 e' == inject_Z (2 ^ 52))%Q as E.
    { subst a. rewrite He', Hn'. rewrite <- (pow2_Z 53), <- (pow2_Z 52) by lia.
      pose proof (pow2_add 52 (e + 1)) as E1. pose proof (pow2_add 53 e) as E2.
      replace (52 + (e + 1))%Z with (53 + e)%Z in E1 by lia.
      pose proof (pow2_pos (e + 1)).
      apply (Qmult_inj_r _ _ (Binary64.pow2 (e + 1))); [lra|].
      rewrite <- E1, E2. field. lra. }
    rewrite (rne_comp _ _ E), rne_Z. subst a. rewrite He', Hn'.
    rewrite <- (pow2_Z 53), <- (pow2_Z 52) by lia.
    pose proof (pow2_add 52 (e + 1)) as E1. pose proof (pow2_add 53 e) as E2.
    replace (52 + (e + 1))%Z with (53 + e)%Z in E1 by lia.
    by rewrite <- E1, E2.
Qed.

Lemma nearest_nearest q :
  (0 <= q)%Q -> (Binary64.nearest (Binary64.nearest q) == Binary64.nearest q)%Q.
Proof.
  intros Hq. unfold Binary64.nearest at 2 3.
  apply nearest_fixed; [by apply significand_bound|].
  unfold Binary64.ulp_exponent. lia.
Qed.

(** What rounding gives is a float. *)
Lemma round_is_float q : Binary64.is_float (Binary64.round q) = true.
Proof.
  unfold Binary64.round.
  pose proof (nearest_nonneg (Qabs q) (Qabs_nonneg q)) as Na.
  pose proof (nearest_nearest (Qabs q) (Qabs_nonneg q)) as Hfix.
  set (a := Binary64.nearest (Qabs q)) in *.
  destruct (Qle_bool (Binary64.pow2 1024) a) eqn:Ho; [done|].
  set (negative := match (q ?= 0)%Q with Lt => true | _ => false end).
  set (r := Qred (if negative then (- a)%Q else a)).
  assert (r == (if negative then - a else a))%Q as Hr by apply Qred_correct.
  assert (Qabs r == a)%Q as Habs.
  { rewrite Hr. destruct negative; [rewrite Qabs_opp|]; by apply Qabs_pos. }
  assert (Binary64.nearest (Qabs r) == a)%Q as Hn.
  { rewrite (nearest_comp (Qabs r) a); [exact Hfix|apply Qabs_nonneg|exact Habs]. }
  assert (Qle_bool (Binary64.pow2 1024) (Binary64.nearest (Qabs r)) = false) as Ho'.
  { apply not_true_iff_false. intros H. apply Qle_bool_iff in H.
    apply not_true_iff_false in Ho. apply Ho. apply Qle_bool_iff. lra. }
  clearbody r negative.
  cbn [Binary64.is_float]. unfold Binary64.round. rewrite Ho'.
  apply Qeq_bool_iff. rewrite Qred_correct.
  destruct (Qcompare_spec r 0) as [H0|H0|H0]; destruct negative; rewrite Hn; lra.
Qed.

Lemma of_exact_is_float x : Binary64.is_float (Binary64.of_exact x) = true.
Proof. destruct x as [|s|q]; [done|done|apply round_is_float]. Qed.

(** What [float] reads is a float. *)
Lemma float_of_string_is_float s x :
  float_of_string s = Some x -> Binary64.is_float x = true.
Proof.
  unfold float_of_string.
  destruct (sign _) as [negative l].
  repeat case_match; intros [= <-]; done || apply round_is_float.
Qed.

Lemma of_exact_mono x y :
  (x <=? y)%py = true -> (Binary64.of_exact x <=? Binary64.of_exact y)%py = true.
Proof.
  assert (forall q, exists y, Binary64.round q = y /\ y <> NaN) as Hr.
  { intros q. eexists. split; [reflexivity|]. unfold Binary64.round. by case_match. }
  destruct x as [|s|p], y as [|t|q]; cbn [Binary64.of_exact leb];
    try discriminate; try done.
  - intros ->. destruct (Hr q) as (y & -> & Hy). by destruct y.
  - destruct t; [discriminate|]. intros _.
    destruct (Hr p) as (y & -> & Hy). destruct y as [|[]|]; done.
  - intros Hpq. apply round_mono. destruct (Qcompare_spec p q); (discriminate || lra).
Qed.

Lemma between_limits (a b x : pyfloat) :
  (b <=? a)%py = true -> (x >? a)%py = true -> (x <? b)%py = false.
Proof. destruct a as [|[]|p], b as [|[]|q], x as [|[]|r]; py_order. Qed.

Lemma rounded_mul_nonneg (k : Z) (s : pyfloat) :
  (0 < k)%Z -> (of_Z 0 <=? s)%py = true -> (of_Z 0 <=? (of_Z k * s)%b64)%py = true.
Proof.
  intros Hk Hs. unfold Binary64.mul.
  change (of_Z 0) with (Binary64.of_exact (of_Z 0)) at 1.
  apply of_exact_mono. rewrite (mul_of_Z_pos k s Hk).
  assert (0 < inject_Z k)%Q by (change 0%Q with (inject_Z 0); rewrite <- Zlt_Qlt; lia).
  destruct s as [|[]|q]; py_order.
Qed.

(** With a standard deviation that is not negative, the rounded limits are
    in order: nothing lies above the upper one and below the lower one. *)
Lemma rounded_limits_ordered (k : Z) (m s x : pyfloat) :
  (0 < k)%Z -> (of_Z 0 <=? s)%py = true ->
  (x >? (m + of_Z k * s)%b64)%py = true -> (x <? (m - of_Z k * s)%b64)%py = false.
Proof.
  intros Hk Hs. pose proof (rounded_mul_nonneg k s Hk Hs) as Ht.
  set (t := (of_Z k * s)%b64) in *. clearbody t.
  unfold Binary64.add, Binary64.sub.
  assert ((m - t <=? m + t)%py = true \/ (m + t)%py = NaN \/ (m - t)%py = NaN) as [H|[H|H]].
  { destruct m as [|[]|p], t as [|[]|q]; simpl in *; try discriminate; auto.
    left. unfold of_Z in Ht. simpl in Ht.
    destruct (Qcompare_spec (inject_Z 0) q); try discriminate;
      change (inject_Z 0) with 0%Q in *;
      destruct (Qcompare_spec (p + - q) (p + q)); try reflexivity; exfalso; lra. }
  - apply of_exact_mono in H. by apply between_limits.
  - rewrite H. simpl. destruct x as [|[]|r]; discriminate.
  - rewrite H. simpl. intros _. by destruct x as [|[]|r].
Qed.

(** ** The heap and the tests *)

Lemma insert_middle {A} (l1 l2 : list A) (x y : A) (i : nat) :
  i = length l1 -> <[i := y]> (l1 ++ x :: l2) = l1 ++ y :: l2.
Proof.
  intros ->. rewrite <- (Nat.add_0_r (length l1)). by rewrite insert_app_r.
Qed.

Lemma Window_append_at (hL hR : list Window.t) (o : Window.t) so se (l : loc) v :
  l = length hL -> 0 < length (Window.data o) ->
  Window_append l v (World (hL ++ o :: hR) so se)
  = (Ok tt, World (hL ++ win_append o v :: hR) so se).
Proof.
  intros Hl Hne.
  unfold Window_append, Window_store, try_except, bind, heap_get, heap_put, raise,
    ndarray_setitem, win_append, set_heap; simpl.
  rewrite (list_lookup_middle hL hR o l Hl).
  destruct (Nat.ltb_spec (Window.idx o) (length (Window.data o))) as [Hlt|Hge]; simpl.
  - rewrite (insert_middle hL hR o _ l Hl). simpl.
    rewrite (list_lookup_middle hL hR _ l Hl). simpl.
    by rewrite (insert_middle hL hR _ _ l Hl).
  - rewrite (list_lookup_middle hL hR o l Hl). simpl.
    rewrite (insert_middle hL hR o _ l Hl). simpl.
    rewrite (list_lookup_middle hL hR _ l Hl). simpl.
    destruct (Nat.ltb_spec 0 (length (Window.data o))) as [_|?]; [|lia]. simpl.
    rewrite (insert_middle hL hR _ _ l Hl). simpl.
    rewrite (list_lookup_middle hL hR _ l Hl). simpl.
    by rewrite (insert_middle hL hR _ _ l Hl).
Qed.

(** With an empty array the second write raises too, after the cursor has
    been reset. *)
Lemma Window_append_empty (hL hR : list Window.t) (o : Window.t) so se (l : loc) v :
  l = length hL -> Window.data o = [] ->
  Window_append l v (World (hL ++ o :: hR) so se)
  = (Raise IndexError, World (hL ++ Window.set_idx o 0 :: hR) so se).
Proof.
  intros Hl He.
  unfold Window_append, Window_store, try_except, bind, heap_get, heap_put, raise,
    ndarray_setitem, set_heap; simpl.
  rewrite (list_lookup_middle hL hR o l Hl). rewrite He. simpl.
  rewrite (list_lookup_middle hL hR o l Hl). simpl.
  rewrite (insert_middle hL hR o _ l Hl). simpl.
  rewrite (list_lookup_middle hL hR _ l Hl). simpl. rewrite He. by simpl.
Qed.

Lemma win_append_length o v :
  length (Window.data (win_append o v)) = length (Window.data o).
Proof. unfold win_append. case_match; simpl; by rewrite length_insert. Qed.

Lemma win_append_n o v : Window.n (win_append o v) = Window.n o.
Proof. unfold win_append. by case_match. Qed.

Lemma bind_ok {A B} (c : Py A) (k : A -> Py B) w a w' :
  c w = (Ok a, w') -> bind c k w = k a w'.
Proof. unfold bind. by intros ->. Qed.

Lemma bind_raise {A B} (c : Py A) (k : A -> Py B) w e w' :
  c w = (Raise e, w') -> bind c k w = (Raise e, w').
Proof. unfold bind. by intros ->. Qed.

Lemma test_3_sigma_test_spec lcl ucl x h so se :
  test_3_sigma_test lcl ucl x (World h so se)
  = (Ok tt, World h so (se ++ sigma3_lines lcl ucl x)).
Proof.
  unfold test_3_sigma_test, sigma3_lines, err_out, ret.
  repeat case_match; simpl; by rewrite ?app_nil_r.
Qed.

Lemma Window_data_at hL hR o so se l :
  l = length hL ->
  Window_data l (World (hL ++ o :: hR) so se)
  = (Ok (Window.data o), World (hL ++ o :: hR) so se).
Proof.
  intros Hl. unfold Window_data, bind, heap_get, ret; simpl.
  by rewrite (list_lookup_middle hL hR o l Hl).
Qed.

Lemma Window_n_at hL hR o so se l :
  l = length hL ->
  Window_n l (World (hL ++ o :: hR) so se)
  = (Ok (Window.n o), World (hL ++ o :: hR) so se).
Proof.
  intros Hl. unfold Window_n, bind, heap_get, ret; simpl.
  by rewrite (list_lookup_middle hL hR o l Hl).
Qed.

Lemma test_2_sigma_test_spec hL hR o so se l lcl ucl x :
  l = length hL -> 0 < length (Window.data o) ->
  test_2_sigma_test l lcl ucl x (World (hL ++ o :: hR) so se)
  = (Ok tt, World (hL ++ win_append o x :: hR) so
              (se ++ sigma2_lines lcl ucl (Window.data (win_append o x)))).
Proof.
  intros Hl Hne. unfold test_2_sigma_test.
  rewrite (bind_ok _ _ _ _ _ (Window_append_at hL hR o so se l x Hl Hne)).
  rewrite (bind_ok _ _ _ _ _ (Window_data_at hL hR _ so se l Hl)).
  unfold sigma2_lines, err_out, ret.
  repeat case_match; simpl; by rewrite ?app_nil_r.
Qed.

Lemma test_1_sigma_test_spec hL hR o so se l lcl ucl x :
  l = length hL -> 0 < length (Window.data o) ->
  test_1_sigma_test l lcl ucl x (World (hL ++ o :: hR) so se)
  = (Ok tt, World (hL ++ win_append o x :: hR) so
              (se ++ sigma1_lines lcl ucl (Window.data (win_append o x)))).
Proof.
  intros Hl Hne. unfold test_1_sigma_test.
  rewrite (bind_ok _ _ _ _ _ (Window_append_at hL hR o so se l x Hl Hne)).
  rewrite (bind_ok _ _ _ _ _ (Window_data_at hL hR _ so se l Hl)).
  unfold sigma1_lines, err_out, ret.
  repeat case_match; simpl; by rewrite ?app_nil_r.
Qed.

Lemma cl_shift_tier_spec hL hR o so se l cl n x :
  l = length hL -> 0 < length (Window.data o) ->
  cl_shift_tier cl x (n, l) (World (hL ++ o :: hR) so se)
  = (Ok tt, World (hL ++ win_append o x :: hR) so
              (se ++ tier_lines cl n (win_append o x))).
Proof.
  intros Hl Hne. unfold cl_shift_tier.
  rewrite (bind_ok _ _ _ _ _ (Window_append_at hL hR o so se l x Hl Hne)).
  rewrite (bind_ok _ _ _ _ _ (Window_data_at hL hR _ so se l Hl)).
  unfold tier_lines.
  repeat case_match; simpl;
    rewrite ?(bind_ok _ _ _ _ _ (Window_n_at hL hR _ so se l Hl));
    unfold err_out, ret; simpl; by rewrite ?app_nil_r.
Qed.

Lemma test_cl_shift_test_spec cl x ns : forall os hL hR so se l,
  l = length hL -> length ns = length os -> Forall nonempty os ->
  test_cl_shift_test (tiers_at ns l) cl x (World (hL ++ os ++ hR) so se)
  = (Ok tt, World (hL ++ map (fun o => win_append o x) os ++ hR) so
              (se ++ tiers_lines cl ns (map (fun o => win_append o x) os))).
Proof.
  unfold test_cl_shift_test.
  induction ns as [|n ns IH]; intros os hL hR so se l Hl Hlen Hne.
  - destruct os; [|done]. simpl. by rewrite app_nil_r.
  - destruct os as [|o os]; [done|]. simpl in *.
    apply Forall_cons in Hne as [Ho Hos].
    rewrite (bind_ok _ _ _ _ _ (cl_shift_tier_spec hL (os ++ hR) o so se l cl n x Hl Ho)).
    rewrite (cons_middle _ hL), app_assoc.
    rewrite (IH os (hL ++ [win_append o x]) hR).
    + by rewrite <- !app_assoc.
    + rewrite length_app. simpl. lia.
    + lia.
    + done.
Qed.

Lemma nonempty_win_append o x : nonempty o -> nonempty (win_append o x).
Proof. unfold nonempty. by rewrite win_append_length. Qed.

Lemma good_feed e x : good e -> good (engine_feed e x).
Proof.
  intros (H2 & H1 & Hs & Hl). repeat split; simpl.
  - by apply nonempty_win_append.
  - by apply nonempty_win_append.
  - apply Forall_map. eapply Forall_impl; [exact Hs|].
    intros o Ho. by apply nonempty_win_append.
  - by rewrite length_map.
Qed.

Lemma engine_step options e x hL hR so se l :
  l = length hL -> good e ->
  for_ (engine_tests options l) (fun test => test x)
    (World (hL ++ engine_heap e ++ hR) so se)
  = (Ok tt, World (hL ++ engine_heap (engine_feed e x) ++ hR) so
              (se ++ engine_lines options (engine_feed e x) x)).
Proof.
  intros Hl (H2 & H1 & Hs & Hlen).
  unfold engine_tests, engine_heap, engine_lines. cbn [for_ app].
  rewrite (bind_ok _ _ _ _ _ (test_3_sigma_test_spec _ _ x _ so se)).
  rewrite (bind_ok _ _ _ _ _
    (test_2_sigma_test_spec hL _ (e2 e) so _ l _ _ x Hl H2)).
  rewrite (cons_middle _ hL), app_assoc.
  rewrite (bind_ok _ _ _ _ _
    (test_1_sigma_test_spec (hL ++ [_]) _ (e1 e) so _ (S l) _ _ x
       ltac:(rewrite length_app; simpl; lia) H1)).
  rewrite (cons_middle _ (hL ++ [_])), app_assoc.
  rewrite (bind_ok _ _ _ _ _
    (test_cl_shift_test_spec _ x thresholds (eshift e) ((hL ++ [_]) ++ [_]) hR so _
       (S (S l)) ltac:(rewrite !length_app; simpl; lia) ltac:(by rewrite Hlen) Hs)).
  unfold ret. cbn [engine_feed e2 e1 eshift].
  by rewrite <- !app_assoc.
Qed.

Lemma engine_loop options l : forall stream events e hL hR so se,
  l = length hL -> good e -> Forall2 yields stream events ->
  for_gen stream (fun x => for_ (engine_tests options l) (fun test => test x))
    (World (hL ++ engine_heap e ++ hR) so se)
  = (Ok tt, World (hL ++ engine_heap (engine_trace options e events).1 ++ hR) so
              (se ++ (engine_trace options e events).2)).
Proof.
  induction stream as [|next stream IH]; intros events e hL hR so se Hl He Hev.
  - apply Forall2_nil_inv_l in Hev as ->. simpl. by rewrite app_nil_r.
  - apply Forall2_cons_inv_l in Hev as ([y msgs] & events' & Hy & Hev & ->).
    cbn [for_gen]. rewrite (bind_ok _ _ _ _ _ (Hy _ so se)). simpl.
    destruct y as [x|].
    + rewrite (bind_ok _ _ _ _ _ (engine_step options e x hL hR so _ l Hl He)).
      rewrite (IH events' (engine_feed e x) hL hR so _ Hl (good_feed e x He) Hev).
      destruct (engine_trace options (engine_feed e x) events') as [e' log]. simpl.
      by rewrite <- !app_assoc.
    + unfold ret at 1. unfold bind at 1.
      rewrite (IH events' e hL hR so _ Hl He Hev).
      destruct (engine_trace options e events') as [e' log]. simpl.
      by rewrite <- !app_assoc.
Qed.

Lemma Window_init_spec n m h so se :
  Window_init n (Some m) (World h so se) = (Ok (length h), World (h ++ [fresh n m]) so se).
Proof.
  unfold Window_init, alloc, fresh, ndarray_fill, np_empty, set_heap; simpl.
  by rewrite length_replicate.
Qed.

Lemma good_fresh options : good (engine_fresh options).
Proof.
  unfold good, nonempty; simpl. repeat split; try lia.
  repeat constructor; simpl; lia.
Qed.

Lemma control_chart_spec stream events options h so se :
  Forall2 yields stream events ->
  control_chart stream options (World h so se)
  = (Ok 0%Z,
     World (h ++ engine_heap (engine_trace options (engine_fresh options) events).1) so
           (se ++ (engine_trace options (engine_fresh options) events).2)).
Proof.
  intros Hev. unfold control_chart, test_3_sigma, test_2_sigma, test_1_sigma, test_cl_shift.
  pose proof (engine_loop options (length h) stream events (engine_fresh options)
                h [] so se eq_refl (good_fresh options) Hev) as Hloop.
  rewrite !app_nil_r in Hloop.
  cbv beta delta [bind ret Window_init alloc set_heap heap stdout stderr] iota zeta.
  rewrite !length_app. cbn [length]. rewrite !Nat.add_1_r. rewrite <- !app_assoc.
  match goal with
  | |- (let (r, w') := ?c in _) = _ =>
      replace c with
        (Ok tt,
         World (h ++ engine_heap (engine_trace options (engine_fresh options) events).1) so
               (se ++ (engine_trace options (engine_fresh options) events).2))
  end.
  reflexivity.
Qed.

(** ** Streams *)

Lemma iter_yields xs : Forall2 yields (iter xs) (value_events xs).
Proof.
  unfold iter, value_events. induction xs as [|x xs IH]; simpl; constructor; [|done].
  intros h so se. unfold ret. simpl. by rewrite app_nil_r.
Qed.

Lemma load_line_yields line : yields (load_line line) (line_event line).
Proof.
  intros h so se. unfold line_event, load_line.
  destruct (String.eqb (strip line) EmptyString).
  { unfold ret. simpl. by rewrite app_nil_r. }
  set (clean := match String.get 0 (strip line) with
                | Some c => _ | None => _ end).
  unfold try_except, bind, float, ret, raise, err_out.
  destruct (float_of_string clean); simpl; by rewrite ?app_nil_r.
Qed.

Lemma load_stream_yields lines : Forall2 yields (load_stream lines) (line_events lines).
Proof.
  unfold load_stream, line_events.
  induction lines as [|line lines IH]; simpl; constructor; [|done].
  apply load_line_yields.
Qed.

(** ** Windows *)

Lemma fold_win_append_length xs : forall o,
  length (Window.data (fold_left win_append xs o)) = length (Window.data o).
Proof.
  induction xs as [|x xs IH]; intros o; simpl; [done|].
  by rewrite IH, win_append_length.
Qed.

Lemma fold_win_append_n xs : forall o,
  Window.n (fold_left win_append xs o) = Window.n o.
Proof.
  induction xs as [|x xs IH]; intros o; simpl; [done|].
  by rewrite IH, win_append_n.
Qed.

Lemma fed_length n m xs : length (Window.data (fed n m xs)) = n.
Proof. unfold fed. rewrite fold_win_append_length. simpl. apply length_replicate. Qed.

Lemma fed_n n m xs : Window.n (fed n m xs) = n.
Proof. unfold fed. by rewrite fold_win_append_n. Qed.

Lemma fed_snoc n m xs x : fed n m (xs ++ [x]) = win_append (fed n m xs) x.
Proof. unfold fed. by rewrite fold_left_app. Qed.

(** Every entry of a window is the initial value or a value that was fed. *)
Lemma win_append_Forall (P : pyfloat -> Prop) o x :
  P x -> Forall P (Window.data o) -> Forall P (Window.data (win_append o x)).
Proof.
  intros Hx Ho. unfold win_append. case_match; simpl; by apply Forall_insert.
Qed.

Lemma fed_Forall (P : pyfloat -> Prop) n m xs :
  P m -> Forall P xs -> Forall P (Window.data (fed n m xs)).
Proof.
  intros Hm. unfold fed.
  assert (Forall P (Window.data (fresh n m))) as Hinit.
  { simpl. by apply Forall_replicate. }
  revert Hinit. generalize (fresh n m).
  induction xs as [|x xs IH]; intros o Ho Hxs; simpl; [done|].
  apply Forall_cons in Hxs as [Hx Hxs].
  apply IH; [|done]. by apply win_append_Forall.
Qed.

(** Before the window is full it holds the values in order, followed by
    the initial value in the slots not written yet. *)
Lemma fold_win_append_prefix n m xs : forall pre k,
  length xs <= k ->
  fold_left win_append xs (Window.mk (length pre) n (pre ++ replicate k m))
  = Window.mk (length pre + length xs) n (pre ++ xs ++ replicate (k - length xs) m).
Proof.
  induction xs as [|x xs IH]; intros pre k Hk; simpl in *.
  - by rewrite Nat.add_0_r, Nat.sub_0_r.
  - destruct k as [|k]; [lia|].
    unfold win_append at 2. simpl.
    destruct (Nat.ltb_spec (length pre) (length (pre ++ m :: replicate k m))) as [_|Hge].
    2:{ rewrite length_app in Hge. simpl in Hge. lia. }
    rewrite (insert_middle pre (replicate k m) m x (length pre) eq_refl).
    transitivity (fold_left win_append xs
                    (Window.mk (length (pre ++ [x])) n ((pre ++ [x]) ++ replicate k m))).
    { f_equal. f_equal; [rewrite length_app; simpl; lia | by rewrite <- app_assoc]. }
    rewrite (IH (pre ++ [x]) k) by lia.
    rewrite length_app. simpl. f_equal; [lia|]. by rewrite <- !app_assoc.
Qed.

Lemma fed_prefix n m xs :
  length xs <= n ->
  fed n m xs = Window.mk (length xs) n (xs ++ replicate (n - length xs) m).
Proof.
  intros Hn. unfold fed, fresh.
  exact (fold_win_append_prefix n m xs [] n Hn).
Qed.

(** ** Counting *)

Lemma np_sum_app a b : np_sum (a ++ b) = np_sum a + np_sum b.
Proof. induction a as [|x a IH]; simpl; [done|]. rewrite IH. lia. Qed.


Lemma np_sum_replicate_false k : np_sum (replicate k false) = 0.
Proof. induction k; simpl; lia. Qed.

Lemma np_gt_app a b v : np_gt (a ++ b) v = np_gt a v ++ np_gt b v.
Proof. unfold np_gt. apply map_app. Qed.

Lemma np_lt_app a b v : np_lt (a ++ b) v = np_lt a v ++ np_lt b v.
Proof. unfold np_lt. apply map_app. Qed.

Lemma np_gt_replicate k m v : np_gt (replicate k m) v = replicate k (m >? v)%py.
Proof. unfold np_gt. induction k; simpl; congruence. Qed.

Lemma np_lt_replicate k m v : np_lt (replicate k m) v = replicate k (m <? v)%py.
Proof. unfold np_lt. induction k; simpl; congruence. Qed.

(** No entry counts when no entry satisfies the comparison. *)
Lemma np_sum_gt_none d v :
  Forall (fun x => (x >? v)%py = false) d -> np_sum (np_gt d v) = 0.
Proof. induction 1 as [|x d Hx _ IH]; simpl; [done|]. by rewrite Hx, IH. Qed.

Lemma np_sum_lt_none d v :
  Forall (fun x => (x <? v)%py = false) d -> np_sum (np_lt d v) = 0.
Proof. induction 1 as [|x d Hx _ IH]; simpl; [done|]. by rewrite Hx, IH. Qed.

Lemma np_sum_gt_all d v :
  Forall (fun x => (x >? v)%py = true) d -> np_sum (np_gt d v) = length d.
Proof. induction 1 as [|x d Hx _ IH]; simpl; [done|]. by rewrite Hx, IH. Qed.

(** When nothing is above [ucl] and below [lcl] at once, the two counts
    share the slots of the window. *)
Lemma counts_share d lcl ucl :
  Forall (fun x => (x >? ucl)%py = true -> (x <? lcl)%py = false) d ->
  np_sum (np_gt d ucl) + np_sum (np_lt d lcl) <= length d.
Proof.
  induction 1 as [|x d Hx _ IH]; simpl; [done|].
  destruct (x >? ucl)%py eqn:Hgt.
  - rewrite (Hx eq_refl). lia.
  - destruct (x <? lcl)%py; lia.
Qed.


Lemma window_trace_snoc lines xs x : forall o,
  window_trace lines o (xs ++ [x])
  = window_trace lines o xs ++ lines (fold_left win_append (xs ++ [x]) o).
Proof.
  induction xs as [|y xs IH]; intros o; simpl.
  - by rewrite app_nil_r.
  - by rewrite IH, app_assoc.
Qed.

Lemma shift_trace_snoc cl xs x : forall os,
  shift_trace cl os (xs ++ [x])
  = shift_trace cl os xs
    ++ tiers_lines cl thresholds (map (fun o => fold_left win_append (xs ++ [x]) o) os).
Proof.
  induction xs as [|y xs IH]; intros os; simpl.
  - by rewrite app_nil_r.
  - rewrite IH, app_assoc. do 2 f_equal. rewrite map_map. done.
Qed.

Lemma window_test_loop test lines l :
  window_test test lines l ->
  forall xs hL hR o so se,
    l = length hL -> nonempty o ->
    for_ xs test (World (hL ++ o :: hR) so se)
    = (Ok tt, World (hL ++ fold_left win_append xs o :: hR) so
                (se ++ window_trace lines o xs)).
Proof.
  intros Htest. induction xs as [|x xs IH]; intros hL hR o so se Hl Ho; simpl.
  - by rewrite app_nil_r.
  - rewrite (bind_ok _ _ _ _ _ (Htest hL hR o so se x Hl Ho)).
    rewrite (IH hL hR _ so _ Hl (nonempty_win_append o x Ho)).
    by rewrite <- app_assoc.
Qed.

Lemma Window_append_loop l xs : forall hL hR o so se,
  l = length hL -> nonempty o ->
  for_ xs (Window_append l) (World (hL ++ o :: hR) so se)
  = (Ok tt, World (hL ++ fold_left win_append xs o :: hR) so se).
Proof.
  induction xs as [|x xs IH]; intros hL hR o so se Hl Ho; simpl; [done|].
  rewrite (bind_ok _ _ _ _ _ (Window_append_at hL hR o so se l x Hl Ho)).
  apply IH; [done|]. by apply nonempty_win_append.
Qed.

Lemma nonempty_fresh n m : 0 < n -> nonempty (fresh n m).
Proof. unfold nonempty. simpl. by rewrite length_replicate. Qed.

Lemma test_2_sigma_spec options h so se :
  test_2_sigma options (World h so se)
  = (Ok (test_2_sigma_test (length h) (limit options 2).1 (limit options 2).2),
     World (h ++ [fresh 3 (Namespace.m options)]) so se).
Proof.
  unfold test_2_sigma.
  by rewrite (bind_ok _ _ _ _ _ (Window_init_spec 3 (Namespace.m options) h so se)).
Qed.

Lemma test_1_sigma_spec options h so se :
  test_1_sigma options (World h so se)
  = (Ok (test_1_sigma_test (length h) (limit options 1).1 (limit options 1).2),
     World (h ++ [fresh 5 (Namespace.m options)]) so se).
Proof.
  unfold test_1_sigma.
  by rewrite (bind_ok _ _ _ _ _ (Window_init_spec 5 (Namespace.m options) h so se)).
Qed.

Lemma feed_test_2_sigma options xs h so se :
  feed test_2_sigma options xs (World h so se)
  = (Ok tt,
     World (h ++ [fed 3 (Namespace.m options) xs]) so
           (se ++ window_trace
                    (fun o => sigma2_lines (limit options 2).1 (limit options 2).2
                                (Window.data o))
                    (fresh 3 (Namespace.m options)) xs)).
Proof.
  unfold feed. rewrite (bind_ok _ _ _ _ _ (test_2_sigma_spec options h so se)).
  apply (window_test_loop _ _ (length h)); [|done|apply nonempty_fresh; lia].
  intros hL hR o so' se' x Hl Ho. by apply test_2_sigma_test_spec.
Qed.

Lemma feed_test_1_sigma options xs h so se :
  feed test_1_sigma options xs (World h so se)
  = (Ok tt,
     World (h ++ [fed 5 (Namespace.m options) xs]) so
           (se ++ window_trace
                    (fun o => sigma1_lines (limit options 1).1 (limit options 1).2
                                (Window.data o))
                    (fresh 5 (Namespace.m options)) xs)).
Proof.
  unfold feed. rewrite (bind_ok _ _ _ _ _ (test_1_sigma_spec options h so se)).
  apply (window_test_loop _ _ (length h)); [|done|apply nonempty_fresh; lia].
  intros hL hR o so' se' x Hl Ho. by apply test_1_sigma_test_spec.
Qed.

Lemma test_cl_shift_test_loop cl ns l xs : forall os hL hR so se,
  l = length hL -> length ns = length os -> Forall nonempty os ->
  ns = thresholds ->
  for_ xs (test_cl_shift_test (tiers_at ns l) cl) (World (hL ++ os ++ hR) so se)
  = (Ok tt, World (hL ++ map (fun o => fold_left win_append xs o) os ++ hR) so
              (se ++ shift_trace cl os xs)).
Proof.
  induction xs as [|x xs IH]; intros os hL hR so se Hl Hlen Hne Hns; simpl.
  - by rewrite map_id, app_nil_r.
  - rewrite (bind_ok _ _ _ _ _
      (test_cl_shift_test_spec cl x ns os hL hR so se l Hl Hlen Hne)).
    rewrite IH; try done.
    + rewrite map_map, <- app_assoc. by subst ns.
    + by rewrite length_map.
    + apply Forall_map. eapply Forall_impl; [exact Hne|].
      intros o Ho. by apply nonempty_win_append.
Qed.

Lemma feed_test_cl_shift options xs h so se :
  feed test_cl_shift options xs (World h so se)
  = (Ok tt,
     World (h ++ map (fun n => fed n (Namespace.m options) xs) sizes) so
           (se ++ shift_trace (Namespace.m options)
                    (map (fun n => fresh n (Namespace.m options)) sizes) xs)).
Proof.
  unfold feed, test_cl_shift.
  cbv beta delta [bind ret Window_init alloc set_heap heap stdout stderr] iota zeta.
  rewrite !length_app. cbn [length]. rewrite !Nat.add_1_r. rewrite <- !app_assoc.
  pose proof (test_cl_shift_test_loop (Namespace.m options) thresholds (length h) xs
                (map (fun n => fresh n (Namespace.m options)) sizes) h [] so se
                eq_refl eq_refl) as Hloop.
  rewrite !app_nil_r in Hloop.
  rewrite map_map in Hloop.
  etransitivity; [|apply Hloop; [|done]].
  - reflexivity.
  - repeat constructor; unfold nonempty; simpl; lia.
Qed.


(** ** The ring buffer *)

Lemma sim_init n m : 0 < n -> sim (fresh n m) (Ring.init n m).
Proof.
  intros Hn. unfold sim; simpl. rewrite length_replicate. auto.
Qed.

Lemma sim_append o r x : sim o r -> sim (win_append o x) (Ring.append r x).
Proof.
  intros (Hd & Hlen & Hc & Hidx). unfold sim, win_append, Ring.append; simpl.
  rewrite Hd, Hlen.
  destruct Hidx as [Hi|[Hi H0]]; rewrite Hi.
  - destruct (Nat.ltb_spec (Ring.writeCursor r) (Ring.capacity r)) as [_|?]; [|lia].
    simpl. rewrite length_insert.
    destruct (decide (Ring.writeCursor r + 1 = Ring.capacity r)) as [He|Hne].
    + rewrite He, Nat.Div0.mod_same. repeat split; auto; lia.
    + rewrite Nat.mod_small by lia. repeat split; auto; lia.
  - destruct (Nat.ltb_spec (Ring.capacity r) (Ring.capacity r)) as [?|_]; [lia|].
    simpl. rewrite H0, length_insert. simpl.
    destruct (decide (1 = Ring.capacity r)) as [He|Hne].
    + rewrite <- He. simpl. repeat split; auto; lia.
    + rewrite Nat.mod_small by lia. repeat split; auto; lia.
Qed.

Lemma sim_appends xs : forall o r,
  sim o r -> sim (fold_left win_append xs o) (Ring.appends r xs).
Proof.
  unfold Ring.appends.
  induction xs as [|x xs IH]; intros o r H; simpl; [done|].
  apply IH. by apply sim_append.
Qed.

(** Appending drops the oldest entry and adds the value as the newest. *)
Lemma chrono_append r x :
  length (Ring.buffer r) = Ring.capacity r -> Ring.writeCursor r < Ring.capacity r ->
  Ring.chrono (Ring.append r x) = drop 1 (Ring.chrono r) ++ [x].
Proof.
  intros Hlen Hc. unfold Ring.chrono, Ring.append; simpl.
  set (c := Ring.writeCursor r) in *. set (b := Ring.buffer r) in *.
  destruct (lookup_lt_is_Some_2 b c ltac:(lia)) as [y Hy].
  pose proof (take_drop_middle b c y Hy) as Hb.
  assert (length (take c b) = c) as Htake by (rewrite length_take; lia).
  assert (<[c := x]> b = take c b ++ x :: drop (S c) b) as Hins.
  { rewrite <- Hb at 1. apply insert_middle. by symmetry. }
  assert (drop c b = y :: drop (S c) b) as Hdrop.
  { rewrite <- Hb at 1. by rewrite drop_app_length' by (symmetry; exact Htake). }
  rewrite Hdrop. simpl. rewrite drop_0.
  destruct (decide (c + 1 = Ring.capacity r)) as [He|Hne].
  - rewrite He, Nat.Div0.mod_same. simpl. rewrite drop_0, Hins.
    assert (drop (S c) b = []) as ->.
    { apply drop_ge. lia. }
    simpl. by rewrite !app_nil_r.
  - rewrite Nat.mod_small by lia. rewrite Hins.
    replace (c + 1) with (S c) by lia.
    rewrite (cons_middle x (take c b)), app_assoc.
    rewrite drop_app_length' by (rewrite length_app; simpl; lia).
    rewrite take_app_length' by (rewrite length_app; simpl; lia).
    by rewrite <- app_assoc.
Qed.

Lemma append_wf r x :
  length (Ring.buffer r) = Ring.capacity r -> Ring.writeCursor r < Ring.capacity r ->
  length (Ring.buffer (Ring.append r x)) = Ring.capacity (Ring.append r x)
  /\ Ring.writeCursor (Ring.append r x) < Ring.capacity (Ring.append r x).
Proof.
  intros Hlen Hc. unfold Ring.append; simpl. rewrite length_insert. split; [done|].
  apply Nat.mod_upper_bound. lia.
Qed.

Lemma chrono_length r :
  length (Ring.buffer r) = Ring.capacity r -> Ring.writeCursor r < Ring.capacity r ->
  length (Ring.chrono r) = Ring.capacity r.
Proof.
  intros Hlen Hc. unfold Ring.chrono.
  rewrite length_app, length_drop, length_take. lia.
Qed.

Lemma chrono_appends xs : forall r,
  length (Ring.buffer r) = Ring.capacity r -> Ring.writeCursor r < Ring.capacity r ->
  Ring.chrono (Ring.appends r xs) = drop (length xs) (Ring.chrono r ++ xs).
Proof.
  unfold Ring.appends.
  induction xs as [|x xs IH]; intros r Hlen Hc; simpl.
  - by rewrite app_nil_r.
  - destruct (append_wf r x Hlen Hc) as [Hlen' Hc'].
    rewrite (IH _ Hlen' Hc'), (chrono_append r x Hlen Hc).
    pose proof (chrono_length r Hlen Hc) as Hl.
    destruct (Ring.chrono r) as [|y l]; [simpl in Hl; lia|].
    simpl. rewrite drop_0. by rewrite <- app_assoc.
Qed.

Lemma chrono_Permutation r : Ring.buffer r ≡ₚ Ring.chrono r.
Proof.
  unfold Ring.chrono.
  rewrite <- (take_drop (Ring.writeCursor r) (Ring.buffer r)) at 1.
  apply Permutation_app_comm.
Qed.

(** ** [Window] objects in the heap *)

Lemma Window_init_any n init h so se :
  Window_init n init (World h so se)
  = (Ok (length h), World (h ++ [fresh n (default NaN init)]) so se).
Proof.
  unfold Window_init, alloc, fresh, ndarray_fill, np_empty, set_heap; simpl.
  destruct init; simpl; by rewrite length_replicate.
Qed.

Lemma Window_feed_spec n init xs h so se :
  0 < n ->
  Window_feed n init xs (World h so se)
  = (Ok (fold_left win_append xs (fresh n (default NaN init))),
     World (h ++ [fold_left win_append xs (fresh n (default NaN init))]) so se).
Proof.
  intros Hn. unfold Window_feed.
  rewrite (bind_ok _ _ _ _ _ (Window_init_any n init h so se)).
  rewrite (bind_ok _ _ _ _ _
    (Window_append_loop (length h) xs h [] _ so se eq_refl
       (nonempty_fresh n _ Hn))).
  unfold heap_get; simpl.
  by rewrite (list_lookup_middle h [] _ (length h) eq_refl).
Qed.

(** ** The engine and its windows *)

Lemma engine_trace_feed options events : forall e,
  (engine_trace options e events).1 = fold_left engine_feed (values events) e.
Proof.
  induction events as [|[[x|] msgs] events IH]; intros e; simpl; [done| |].
  - specialize (IH (engine_feed e x)).
    destruct (engine_trace options (engine_feed e x) events). simpl in *. done.
  - specialize (IH e). destruct (engine_trace options e events). simpl in *. done.
Qed.

Lemma values_value_events xs : values (value_events xs) = xs.
Proof.
  unfold values, value_events. induction xs as [|x xs IH]; simpl; [done|].
  by f_equal.
Qed.

Lemma engine_heap_feed xs : forall e,
  engine_heap (fold_left engine_feed xs e)
  = map (fun o => fold_left win_append xs o) (engine_heap e).
Proof.
  induction xs as [|x xs IH]; intros e; simpl.
  - unfold engine_heap. by rewrite map_id.
  - rewrite IH. unfold engine_heap; simpl. by rewrite map_map.
Qed.

(** The windows of the engine are the seven fresh windows with the values
    appended. *)
Lemma engine_heap_fed options xs :
  engine_heap (fold_left engine_feed xs (engine_fresh options))
  = map (fun n => fed n (Namespace.m options) xs) (3 :: 5 :: sizes).
Proof. rewrite engine_heap_feed. reflexivity. Qed.

Lemma appends_at x : forall os hL hR so se l,
  l = length hL -> Forall nonempty os ->
  for_ (seq l (length os)) (fun w => Window_append w x) (World (hL ++ os ++ hR) so se)
  = (Ok tt, World (hL ++ map (fun o => win_append o x) os ++ hR) so se).
Proof.
  induction os as [|o os IH]; intros hL hR so se l Hl Hne; simpl; [done|].
  apply Forall_cons in Hne as [Ho Hos].
  rewrite (bind_ok _ _ _ _ _ (Window_append_at hL (os ++ hR) o so se l x Hl Ho)).
  rewrite (cons_middle _ hL), app_assoc.
  rewrite (IH (hL ++ [win_append o x]) hR so se (S l)); [|rewrite length_app; simpl; lia|done].
  by rewrite <- !app_assoc.
Qed.

Lemma appends_loop l xs : forall os hL hR so se,
  l = length hL -> Forall nonempty os ->
  for_ xs (fun x => for_ (seq l (length os)) (fun w => Window_append w x))
    (World (hL ++ os ++ hR) so se)
  = (Ok tt, World (hL ++ map (fun o => fold_left win_append xs o) os ++ hR) so se).
Proof.
  induction xs as [|x xs IH]; intros os hL hR so se Hl Hne; simpl.
  - by rewrite map_id.
  - rewrite (bind_ok _ _ _ _ _ (appends_at x os hL hR so se l Hl Hne)).
    rewrite <- (length_map (fun o => win_append o x) os).
    rewrite IH; [by rewrite map_map|done|].
    apply Forall_map. eapply Forall_impl; [exact Hne|].
    intros o Ho. by apply nonempty_win_append.
Qed.

Lemma windows_only_spec options xs h so se :
  windows_only options xs (World h so se)
  = (Ok tt, World (h ++ map (fun n => fed n (Namespace.m options) xs) (3 :: 5 :: sizes)) so se).
Proof.
  unfold windows_only.
  cbv beta delta [bind ret Window_init alloc set_heap heap stdout stderr] iota zeta.
  rewrite !length_app. cbn [length]. rewrite !Nat.add_1_r. rewrite <- !app_assoc.
  pose proof (appends_loop (length h) xs
                (map (fun n => fresh n (Namespace.m options)) (3 :: 5 :: sizes)) h [] so se
                eq_refl) as Hloop.
  rewrite !app_nil_r in Hloop. rewrite map_map in Hloop.
  etransitivity; [|apply Hloop].
  - reflexivity.
  - repeat constructor; unfold nonempty; simpl; lia.
Qed.


Lemma written_spec {A} (c : Py A) (r : result A) h so se h' so' log :
  c (World h so se) = (r, World h' so' (se ++ log)) ->
  written c (World h so se) = log.
Proof. unfold written. intros ->. simpl. apply drop_app_length. Qed.

Lemma feed_test_3_sigma options x h so se :
  feed test_3_sigma options [x] (World h so se)
  = (Ok tt, World h so (se ++ sigma3_lines (limit options 3).1 (limit options 3).2 x)).
Proof.
  unfold feed, test_3_sigma. unfold ret at 1. unfold bind at 1. simpl.
  by rewrite (bind_ok _ _ _ _ _ (test_3_sigma_test_spec _ _ x h so se)).
Qed.

Lemma feed_rounded_test_3_sigma options x h so se :
  let lcl := (Namespace.m options - of_Z 3 * Namespace.s options)%b64 in
  let ucl := (Namespace.m options + of_Z 3 * Namespace.s options)%b64 in
  feed Rounded.test_3_sigma options [x] (World h so se)
  = (Ok tt, World h so (se ++ sigma3_lines lcl ucl x)).
Proof.
  intros lcl ucl. unfold feed, Rounded.test_3_sigma. unfold ret at 1. unfold bind at 1. simpl.
  by rewrite (bind_ok _ _ _ _ _ (test_3_sigma_test_spec _ _ x h so se)).
Qed.

Lemma feed_rounded_test_2_sigma options xs h so se :
  let lcl := (Namespace.m options - of_Z 2 * Namespace.s options)%b64 in
  let ucl := (Namespace.m options + of_Z 2 * Namespace.s options)%b64 in
  feed Rounded.test_2_sigma options xs (World h so se)
  = (Ok tt,
     World (h ++ [fed 3 (Namespace.m options) xs]) so
           (se ++ window_trace (fun o => sigma2_lines lcl ucl (Window.data o))
                    (fresh 3 (Namespace.m options)) xs)).
Proof.
  intros lcl ucl. unfold feed, Rounded.test_2_sigma.
  rewrite (bind_ok _ _ _ _ _
             (bind_ok _ _ _ _ _ (Window_init_spec 3 (Namespace.m options) h so se))).
  apply (window_test_loop _ _ (length h)); [|done|apply nonempty_fresh; lia].
  intros hL hR o so' se' x Hl Ho. by apply test_2_sigma_test_spec.
Qed.

Lemma feed_rounded_test_1_sigma options xs h so se :
  let lcl := (Namespace.m options - of_Z 1 * Namespace.s options)%b64 in
  let ucl := (Namespace.m options + of_Z 1 * Namespace.s options)%b64 in
  feed Rounded.test_1_sigma options xs (World h so se)
  = (Ok tt,
     World (h ++ [fed 5 (Namespace.m options) xs]) so
           (se ++ window_trace (fun o => sigma1_lines lcl ucl (Window.data o))
                    (fresh 5 (Namespace.m options)) xs)).
Proof.
  intros lcl ucl. unfold feed, Rounded.test_1_sigma.
  rewrite (bind_ok _ _ _ _ _
             (bind_ok _ _ _ _ _ (Window_init_spec 5 (Namespace.m options) h so se))).
  apply (window_test_loop _ _ (length h)); [|done|apply nonempty_fresh; lia].
  intros hL hR o so' se' x Hl Ho. by apply test_1_sigma_test_spec.
Qed.

(** ** Lemmas for the claims *)

Lemma counts_prefix n m xs lcl ucl :
  inside lcl ucl m -> length xs <= n ->
  let d := Window.data (fed n m xs) in
  d = xs ++ replicate (n - length xs) m
  /\ np_sum (np_gt d ucl) = np_sum (np_gt xs ucl)
  /\ np_sum (np_lt d lcl) = np_sum (np_lt xs lcl).
Proof.
  intros [Hgt Hlt] Hn d. subst d. rewrite (fed_prefix n m xs Hn). simpl.
  split; [done|].
  rewrite np_gt_app, np_lt_app, !np_sum_app, np_gt_replicate, np_lt_replicate.
  rewrite Hgt, Hlt, !np_sum_replicate_false. lia.
Qed.

Lemma inside_counts lcl ucl d :
  Forall (inside lcl ucl) d ->
  np_sum (np_gt d ucl) = 0 /\ np_sum (np_lt d lcl) = 0.
Proof.
  intros Hd. split; [apply np_sum_gt_none|apply np_sum_lt_none];
    (eapply Forall_impl; [exact Hd|]); by intros x [? ?].
Qed.

Lemma sigma2_lines_inside lcl ucl d :
  Forall (inside lcl ucl) d -> sigma2_lines lcl ucl d = [].
Proof.
  intros Hd. destruct (inside_counts lcl ucl d Hd) as [Hgt Hlt].
  unfold sigma2_lines. by rewrite Hgt, Hlt.
Qed.

Lemma sigma1_lines_inside lcl ucl d :
  Forall (inside lcl ucl) d -> sigma1_lines lcl ucl d = [].
Proof.
  intros Hd. destruct (inside_counts lcl ucl d Hd) as [Hgt Hlt].
  unfold sigma1_lines. by rewrite Hgt, Hlt.
Qed.



Lemma window_trace_nil (lines : Window.t -> list message) (P : pyfloat -> Prop) xs :
  (forall o, Forall P (Window.data o) -> lines o = []) ->
  forall o, Forall P (Window.data o) -> Forall P xs -> window_trace lines o xs = [].
Proof.
  intros Hlines. induction xs as [|x xs IH]; intros o Ho Hxs; simpl; [done|].
  apply Forall_cons in Hxs as [Hx Hxs].
  pose proof (win_append_Forall P o x Hx Ho) as Ho'.
  by rewrite (Hlines _ Ho'), (IH _ Ho' Hxs).
Qed.


Lemma centerline_on_itself m : inside m m m.
Proof. unfold inside, gtb. by rewrite ltb_irrefl. Qed.





Lemma feed_test_cl_shift_snoc options xs x h so se :
  feed test_cl_shift options (xs ++ [x]) (World h so se)
  = (Ok tt,
     World (h ++ map (fun n => win_append (fed n (Namespace.m options) xs) x) sizes) so
           (se ++ shift_trace (Namespace.m options)
                    (map (fun n => fresh n (Namespace.m options)) sizes) xs
               ++ tiers_lines (Namespace.m options) thresholds
                    (map (fun n => win_append (fed n (Namespace.m options) xs) x) sizes))).
Proof.
  rewrite feed_test_cl_shift, shift_trace_snoc, map_map.
  unfold sizes, fed. cbn [map]. by rewrite !fold_left_app.
Qed.

(** A run of values above the centerline in a window that is not full. *)
Lemma run_counts n m run :
  length run <= n -> Forall (fun v => (v >? m)%py = true) run ->
  Window.data (fed n m run) = run ++ replicate (n - length run) m
  /\ np_sum (np_gt (Window.data (fed n m run)) m) = length run
  /\ np_sum (np_lt (Window.data (fed n m run)) m) = 0.
Proof.
  intros Hn Hrun.
  destruct (counts_prefix n m run m m (centerline_on_itself m) Hn) as (Hd & Hgt & Hlt).
  split; [done|]. rewrite Hgt, Hlt. split; [by apply np_sum_gt_all|].
  apply np_sum_lt_none. eapply Forall_impl; [exact Hrun|].
  intros v Hv. by apply ltb_asym.
Qed.

Lemma tier_lines_run k n m run :
  length run <= n -> length run < k -> Forall (fun v => (v >? m)%py = true) run ->
  tier_lines m k (fed n m run) = [].
Proof.
  intros Hn Hk Hrun. destruct (run_counts n m run Hn Hrun) as (_ & Hgt & Hlt).
  unfold tier_lines. rewrite Hgt, Hlt.
  destruct (Nat.leb_spec k (length run)); [lia|].
  destruct (Nat.leb_spec k 0); [lia|done].
Qed.

Lemma get_value_cases usage flag value h so se :
  (exists x, get_value usage flag value (World h so se) = (Ok x, World h so se))
  \/ (exists msg,
        get_value usage flag value (World h so se)
        = (Raise (SystemExit 2), World h so (se ++ [usage; msg]))).
Proof.
  unfold get_value, try_except, float, parser_error, err_out, sys_exit, raise, ret, bind.
  destruct value as [v|]; simpl.
  - destruct (float_of_string v) as [x|]; simpl; [left; eauto|].
    right. eexists. by rewrite <- app_assoc.
  - right. eexists. by rewrite <- app_assoc.
Qed.

(** The arguments are consumed without any effect, unless an error is
    reported (status 2) or the help is shown (status 0). *)
Lemma consume_cases usage help argv : forall m s extras h so se,
  (exists m' s' extras',
     consume usage help argv m s extras (World h so se)
     = (Ok (m', s', extras'), World h so se)
     /\ (existsb is_center argv = false -> m' = m)
     /\ (existsb is_stdev argv = false -> s' = s))
  \/ (exists msg,
        consume usage help argv m s extras (World h so se)
        = (Raise (SystemExit 2), World h so (se ++ [usage; msg])))
  \/ (consume usage help argv m s extras (World h so se)
      = (Raise (SystemExit 0), World h (so ++ [help]) se)
      /\ existsb is_help argv = true).
Proof.
  induction argv as [|a argv IH]; intros m s extras h so se.
  - left. by exists m, s, extras.
  - destruct a as [value|value| |word]; cbn [consume existsb is_center is_stdev is_help orb].
    + destruct (get_value_cases usage "-m/--center" value h so se) as [[x Hx]|[msg Hx]].
      * rewrite (bind_ok _ _ _ _ _ Hx).
        destruct (IH (Some x) s extras h so se)
          as [(m' & s' & e' & Hc & _ & Hs)|[[msg Hc]|[Hc Hh]]]; rewrite Hc.
        -- left. exists m', s', e'. split; [done|]. split; [done|exact Hs].
        -- right. left. eauto.
        -- right. right. by split.
      * right. left. exists msg. by rewrite (bind_raise _ _ _ _ _ Hx).
    + destruct (get_value_cases usage "-s/--stdev" value h so se) as [[x Hx]|[msg Hx]].
      * rewrite (bind_ok _ _ _ _ _ Hx).
        destruct (IH m (Some x) extras h so se)
          as [(m' & s' & e' & Hc & Hm & _)|[[msg Hc]|[Hc Hh]]]; rewrite Hc.
        -- left. exists m', s', e'. split; [done|]. split; [exact Hm|done].
        -- right. left. eauto.
        -- right. right. by split.
      * right. left. exists msg. by rewrite (bind_raise _ _ _ _ _ Hx).
    + right. right. split; [|done].
      unfold help_action, print, sys_exit, raise, bind. reflexivity.
    + apply IH.
Qed.

(** [parse_args] away from a terminal: the options are returned and nothing
    has happened, or an error is reported on standard error, or the help is
    shown on standard output. Options are returned only if both [-m] and
    [-s] are on the command line, and the help is shown only if [-h] is. *)
Lemma parse_args_cases fname argv h so se :
  let usage := Message "usage: cat data | python %s" [AStr fname] in
  (exists options,
     parse_args fname false argv (World h so se) = (Ok options, World h so se)
     /\ existsb is_center argv = true /\ existsb is_stdev argv = true)
  \/ (exists msg,
        parse_args fname false argv (World h so se)
        = (Raise (SystemExit 2), World h so (se ++ [usage; msg])))
  \/ (exists help,
        parse_args fname false argv (World h so se)
        = (Raise (SystemExit 0), World h (so ++ [help]) se)
        /\ existsb is_help argv = true).
Proof.
  intros usage. unfold parse_args, ArgumentParser_parse_args. fold usage.
  set (help := Message "usage: cat data | python %s; options: %s, %s, %s" _).
  destruct (consume_cases usage help argv None None [] h so se)
    as [(m & s & extras & Hc & Hm & Hs)|[[msg Hc]|[Hc Hh]]].
  - rewrite (bind_ok _ _ _ _ _ Hc).
    destruct m as [m|], s as [s|];
      try (right; left; eexists;
           unfold parser_error, err_out, sys_exit, raise, bind; simpl;
           by rewrite <- app_assoc).
    destruct extras as [|word extras].
    + left. exists (Namespace.mk m s). split; [done|].
      split; apply not_false_iff_true; intros H; [by apply Hm in H|by apply Hs in H].
    + right. left. eexists.
      unfold parser_error, err_out, sys_exit, raise, bind; simpl.
      by rewrite <- app_assoc.
  - right. left. exists msg. by rewrite (bind_raise _ _ _ _ _ Hc).
  - right. right. exists help. split; [|done]. by rewrite (bind_raise _ _ _ _ _ Hc).
Qed.

(** The command line [-m c -s d], in either order, when [c] and [d] are
    floats. *)
Lemma parse_args_ok fname c d m s argv w :
  float_of_string c = Some m -> float_of_string d = Some s ->
  argv = [Center (Some c); Stdev (Some d)] \/ argv = [Stdev (Some d); Center (Some c)] ->
  parse_args fname false argv w = (Ok (Namespace.mk m s), w).
Proof.
  intros Hc Hd [-> | ->];
    unfold parse_args, ArgumentParser_parse_args, consume, get_value, try_except,
      float, bind, ret;
    by rewrite Hc, Hd.
Qed.

Lemma parse_args_tty fname argv h so se :
  parse_args fname true argv (World h so se)
  = (Raise (SystemExit 1),
     World h (so ++ [Message "usage: cat data | python %s" [AStr fname];
                     Message "for more help use --help" []]) se).
Proof.
  unfold parse_args, print, sys_exit, raise, bind. simpl. by rewrite <- app_assoc.
Qed.

(** Once [parse_args] has returned, the script reads every line and exits
    with status 0. *)
Lemma script_runs fname argv options stdin h so se :
  parse_args fname false argv (World h so se) = (Ok options, World h so se) ->
  script fname false argv stdin (World h so se)
  = (Raise (SystemExit 0),
     World (h ++ map (fun n => fed n (Namespace.m options) (values (line_events stdin)))
                   [3; 5; 8; 11; 14; 17; 20]) so
           (se ++ (engine_trace options (engine_fresh options) (line_events stdin)).2)).
Proof.
  intros Hargs. unfold script.
  assert (main fname false argv stdin (World h so se)
          = (Ok 0%Z,
             World (h ++ engine_heap
                      (engine_trace options (engine_fresh options)
                         (line_events stdin)).1) so
                   (se ++ (engine_trace options (engine_fresh options)
                             (line_events stdin)).2))) as Hmain.
  { unfold main. rewrite (bind_ok _ _ _ _ _ Hargs).
    apply control_chart_spec, load_stream_yields. }
  rewrite (bind_ok _ _ _ _ _ Hmain).
  by rewrite engine_trace_feed, (engine_heap_fed options).
Qed.

(** When [parse_args] exits, so does the script, in the same state. *)
Lemma script_stops fname isatty argv stdin w code w' :
  parse_args fname isatty argv w = (Raise (SystemExit code), w') ->
  script fname isatty argv stdin w = (Raise (SystemExit code), w').
Proof.
  intros Hargs. unfold script. apply bind_raise. unfold main. by apply bind_raise.
Qed.

(** * The claims *)

(** C1. A fresh 3-sigma test given one value [x] returns normally and
    writes at most one line, the limits being [centerline - 3*stdev] and
    [centerline + 3*stdev] as the interpreter computes them: nothing when
    [x] is within the limits; the [is < 3 sigma] line when [x] is strictly
    below the lower limit; with a standard deviation that is not negative,
    the [is > 3 sigma] line when [x] is strictly above the upper limit, and
    [x] is never on both sides. *)
Theorem three_sigma_rule (options : Namespace.t) (x : pyfloat) (h : list Window.t)
    (so se : list message) :
  let lcl := (Namespace.m options - of_Z 3 * Namespace.s options)%b64 in
  let ucl := (Namespace.m options + of_Z 3 * Namespace.s options)%b64 in
  let lines := written (feed Rounded.test_3_sigma options [x]) (World h so se) in
  (feed Rounded.test_3_sigma options [x] (World h so se)).1 = Ok tt
  /\ ((lcl <=? x)%py = true -> (x <=? ucl)%py = true -> lines = [])
  /\ ((x <? lcl)%py = true -> lines = [Message "%g is < 3 sigma" [AFloat x]])
  /\ ((x >? ucl)%py = true -> (x <? lcl)%py = false ->
      lines = [Message "%g is > 3 sigma" [AFloat x]])
  /\ ((of_Z 0 <=? Namespace.s options)%py = true ->
      ((x >? ucl)%py = true -> lines = [Message "%g is > 3 sigma" [AFloat x]])
      /\ ~ ((x <? lcl)%py = true /\ (x >? ucl)%py = true))
  /\ length lines <= 1.
Proof.
  intros lcl ucl lines.
  pose proof (feed_rounded_test_3_sigma options x h so se) as Hrun.
  assert (lines = sigma3_lines lcl ucl x) as Hlines.
  { subst lines. by rewrite (written_spec _ _ _ _ _ _ _ _ Hrun). }
  rewrite Hrun, Hlines. unfold sigma3_lines.
  split; [done|]. split; [|split; [|split; [|split]]].
  - intros Hlo Hhi. apply leb_not_ltb in Hlo, Hhi. unfold gtb. by rewrite Hlo, Hhi.
  - by intros ->.
  - by intros -> ->.
  - intros Hs. split.
    + intros Hgt. subst lcl ucl.
      rewrite (rounded_limits_ordered 3 _ _ x ltac:(lia) Hs Hgt). by rewrite Hgt.
    + intros [Hlt Hgt]. subst lcl ucl.
      rewrite (rounded_limits_ordered 3 _ _ x ltac:(lia) Hs Hgt) in Hlt. discriminate.
  - repeat case_match; simpl; lia.
Qed.

(** With centerline -0.9 and standard deviation 0.3 (the floats nearest to
    these numbers) the upper limit is the float [-2^-53]: the value -8e-17
    lies above it and is reported. *)
Lemma three_sigma_rule_witness :
  let options := Namespace.mk (Binary64.round (- 9 # 10)) (Binary64.round (3 # 10)) in
  let x := Binary64.round (- 8 # 100000000000000000) in
  (Namespace.m options + of_Z 3 * Namespace.s options)%b64 = Fin (- 1 # 2 ^ 53)
  /\ written (feed Rounded.test_3_sigma options [x]) boot
     = [Message "%g is > 3 sigma" [AFloat x]].
Proof.
  intros options x. split; [reflexivity|].
  destruct (three_sigma_rule options x [] [] []) as (_ & _ & _ & _ & H & _).
  apply H; reflexivity.
Defined.

(** The limits are those of the interpreter, not the exact sums: in the
    case above the value -8e-17 lies below [-0.9 + 3 * 0.3] computed
    without rounding; with centerline 0 and standard deviation 0.1 the
    value 0.30000000000000004 lies above [0 + 3 * 0.1] computed without
    rounding, but is the upper limit itself, and nothing is written. *)
Remark three_sigma_limits_are_rounded :
  let x := Binary64.round (- 8 # 100000000000000000) in
  let options := Namespace.mk (Binary64.round (- 9 # 10)) (Binary64.round (3 # 10)) in
  let y := Binary64.round (30000000000000004 # 100000000000000000) in
  let options' := Namespace.mk (of_Z 0) (Binary64.round (1 # 10)) in
  (x >? Namespace.m options + of_Z 3 * Namespace.s options)%py = false
  /\ (y >? Namespace.m options' + of_Z 3 * Namespace.s options')%py = true
  /\ (Namespace.m options' + of_Z 3 * Namespace.s options')%b64 = y
  /\ written (feed Rounded.test_3_sigma options' [y]) boot = [].
Proof. repeat split; vm_compute; reflexivity. Qed.

(** The condition on the standard deviation is needed for the upper line:
    with centerline 0 and standard deviation -1 the limits are 3 below and
    -3 above; the value 0 is above the upper limit and below the lower one,
    and the line written is the [is < 3 sigma] one. *)
Remark three_sigma_above_reported_below :
  let options := Namespace.mk (of_Z 0) (of_Z (-1)) in
  let ucl := (Namespace.m options + of_Z 3 * Namespace.s options)%b64 in
  (of_Z 0 >? ucl)%py = true
  /\ written (feed Rounded.test_3_sigma options [of_Z 0]) boot
     = [Message "%g is < 3 sigma" [AFloat (of_Z 0)]].
Proof. split; reflexivity. Qed.

(** C2. A fresh 2-sigma test with centerline 0 and standard deviation 1:
    after 2.5 the window is [[2.5, 0, 0]], one entry is above the upper
    limit 2 and nothing is written; after a second 2.5 the window is
    [[2.5, 2.5, 0]] and the [2/3 points > 2 sigma] line is written, before
    three values have arrived. *)
Theorem two_sigma_fires_on_second (h : list Window.t) (so se : list message) :
  let options := Namespace.mk (of_Z 0) (of_Z 1) in
  let ucl := (Namespace.m options + of_Z 2 * Namespace.s options)%py in
  let x := Fin (5 # 2) in
  feed test_2_sigma options [x] (World h so se)
  = (Ok tt, World (h ++ [Window.mk 1 3 [x; of_Z 0; of_Z 0]]) so se)
  /\ np_sum (np_gt [x; of_Z 0; of_Z 0] ucl) = 1
  /\ feed test_2_sigma options [x; x] (World h so se)
     = (Ok tt,
        World (h ++ [Window.mk 2 3 [x; x; of_Z 0]]) so
              (se ++ [Message "%s is 2/3 points > 2 sigma" [AArray [x; x; of_Z 0]]])).
Proof.
  intros options ucl x. rewrite !feed_test_2_sigma.
  split; [|split]; [|reflexivity|reflexivity].
  by rewrite app_nil_r.
Qed.

(** C3. Given a value, the centerline-shift test appends it to the five
    windows and writes the lines of the five tiers (thresholds 8, 10, 12,
    14, 16 of the windows of 8, 11, 14, 17, 20 slots), each computed from
    its own window, one after the other. In particular, when the first
    eight values fed to a fresh test are all above the centerline, the
    eighth makes it write the [8/8] line and no other: the window of 11
    slots holds only 8 entries above the centerline. *)
Theorem cl_shift_tiers_independent (options : Namespace.t) :
  let m := Namespace.m options in
  (forall xs x h so se, exists log,
     feed test_cl_shift options xs (World h so se)
     = (Ok tt, World (h ++ map (fun n => fed n m xs) [8; 11; 14; 17; 20]) so (se ++ log))
     /\ feed test_cl_shift options (xs ++ [x]) (World h so se)
        = (Ok tt,
           World (h ++ map (fun n => win_append (fed n m xs) x) [8; 11; 14; 17; 20]) so
                 (se ++ log
                  ++ tier_lines m 8 (win_append (fed 8 m xs) x)
                  ++ tier_lines m 10 (win_append (fed 11 m xs) x)
                  ++ tier_lines m 12 (win_append (fed 14 m xs) x)
                  ++ tier_lines m 14 (win_append (fed 17 m xs) x)
                  ++ tier_lines m 16 (win_append (fed 20 m xs) x))))
  /\ (forall xs x h so se,
        length xs = 7 -> Forall (fun v => (v >? m)%py = true) (xs ++ [x]) ->
        exists log,
          feed test_cl_shift options xs (World h so se)
          = (Ok tt, World (h ++ map (fun n => fed n m xs) [8; 11; 14; 17; 20]) so (se ++ log))
          /\ feed test_cl_shift options (xs ++ [x]) (World h so se)
             = (Ok tt,
                World (h ++ map (fun n => fed n m (xs ++ [x])) [8; 11; 14; 17; 20]) so
                      (se ++ log
                       ++ [Message "%s is %g/%g points > centerline"
                             [AArray (xs ++ [x]); AInt 8; AInt 8]]))
          /\ np_sum (np_gt (Window.data (fed 11 m (xs ++ [x]))) m) = 8).
Proof.
  intros m. split.
  - intros xs x h so se. eexists. split; [apply feed_test_cl_shift|].
    rewrite feed_test_cl_shift_snoc. simpl. by rewrite !app_nil_r.
  - subst m. intros xs x h so se Hlen Hrun.
    assert (length (xs ++ [x]) = 8) as Hlen8 by (rewrite length_app; simpl; lia).
    eexists. split; [apply feed_test_cl_shift|].
    rewrite feed_test_cl_shift_snoc. unfold sizes, thresholds. simpl map.
    rewrite <- !fed_snoc. cbn [tiers_lines].
    rewrite (tier_lines_run 10 11), (tier_lines_run 12 14), (tier_lines_run 14 17),
      (tier_lines_run 16 20) by (done || lia).
    destruct (run_counts 8 _ (xs ++ [x]) ltac:(lia) Hrun) as (Hd & Hgt & _).
    destruct (run_counts 11 _ (xs ++ [x]) ltac:(lia) Hrun) as (_ & Hgt11 & _).
    split; [|by rewrite Hgt11].
    unfold tier_lines. rewrite Hgt, Hlen8. cbn [Nat.leb].
    rewrite Hd, Hlen8, fed_n. simpl. by rewrite !app_nil_r.
Qed.

Lemma cl_shift_tiers_independent_witness :
  let options := Namespace.mk (of_Z 0) (of_Z 1) in
  let xs := replicate 7 (of_Z 1) in
  exists log,
    feed test_cl_shift options xs boot
    = (Ok tt, World ([] ++ map (fun n => fed n (of_Z 0) xs) [8; 11; 14; 17; 20]) [] ([] ++ log))
    /\ feed test_cl_shift options (xs ++ [of_Z 1]) boot
       = (Ok tt,
          World ([] ++ map (fun n => fed n (of_Z 0) (xs ++ [of_Z 1])) [8; 11; 14; 17; 20]) []
                ([] ++ log
                 ++ [Message "%s is %g/%g points > centerline"
                       [AArray (xs ++ [of_Z 1]); AInt 8; AInt 8]]))
    /\ np_sum (np_gt (Window.data (fed 11 (of_Z 0) (xs ++ [of_Z 1]))) (of_Z 0)) = 8.
Proof.
  intros options xs.
  apply (proj2 (cl_shift_tiers_independent options) xs (of_Z 1) [] [] []).
  - reflexivity.
  - repeat constructor.
Defined.



(** The condition on the standard deviation is needed: with centerline 0
    and standard deviation -1 the upper limit of the 2-sigma test is -2 and
    the initial value 0 of the slots is above it. Fed the single value NaN,
    which is on neither side, the test counts the two slots not written yet
    and writes a line. *)
Remark padding_fires_with_negative_stdev :
  let options := Namespace.mk (of_Z 0) (of_Z (-1)) in
  let m := Namespace.m options in
  let s := Namespace.s options in
  ~ padding_neutral test_2_sigma options [3] (m - of_Z 2 * s)%py (m + of_Z 2 * s)%py.
Proof.
  intros options m s H.
  destruct (H [NaN] [] [] []) as (log & Hrun & _ & Hquiet).
  rewrite feed_test_2_sigma in Hrun.
  assert (log = []) as ->.
  { apply Hquiet. repeat constructor. }
  discriminate Hrun.
Qed.

(** C5, as amended. Nothing looks at the value of the standard deviation:
    on the command line [-m c -s d], whatever the floats [c] and [d], [d]
    zero or negative included, the script reads every line of the input and
    exits with status 0. A command line that lacks [-m] or [-s], and does
    not ask for the help, is refused: the script exits with status 2 after
    the usage and one error line; no window exists and no line of the input
    has been read. *)
Theorem stdev_is_not_validated (fname : string) (stdin : list string) :
  (forall c d m s,
     float_of_string c = Some m -> float_of_string d = Some s ->
     let run := script fname false [Center (Some c); Stdev (Some d)] stdin boot in
     exit_status run.1 = 0%Z
     /\ heap run.2
        = map (fun n => fed n m (values (line_events stdin))) [3; 5; 8; 11; 14; 17; 20]
     /\ stdout run.2 = [])
  /\ (forall argv,
        existsb is_help argv = false ->
        existsb is_center argv = false \/ existsb is_stdev argv = false ->
        let run := script fname false argv stdin boot in
        exit_status run.1 = 2%Z
        /\ heap run.2 = [] /\ stdout run.2 = [] /\ length (stderr run.2) = 2).
Proof.
  split.
  - intros c d m s Hc Hd run. subst run. unfold boot.
    by rewrite (script_runs fname _ (Namespace.mk m s) stdin [] [] []
                  (parse_args_ok fname c d m s _ _ Hc Hd (or_introl eq_refl))).
  - intros argv Hh Hmissing run. subst run. unfold boot.
    destruct (parse_args_cases fname argv [] [] [])
      as [(options & _ & Hm & Hs)|[[msg Hrun]|(help & _ & Hhelp)]].
    + destruct Hmissing; congruence.
    + by rewrite (script_stops _ _ _ stdin _ _ _ Hrun).
    + congruence.
Qed.

Lemma stdev_is_not_validated_witness :
  let run :=
    script "control_chart.py" false [Center (Some "0"%string); Stdev (Some "-1"%string)]
      ["5"%string] boot in
  exit_status run.1 = 0%Z
  /\ heap run.2
     = map (fun n => fed n (of_Z 0) (values (line_events ["5"%string])))
         [3; 5; 8; 11; 14; 17; 20]
  /\ stdout run.2 = [].
Proof.
  apply (proj1 (stdev_is_not_validated "control_chart.py" ["5"%string])
           "0"%string "-1"%string (of_Z 0) (of_Z (-1))); reflexivity.
Defined.

(** C5, as stated, fails: with a standard deviation of -1, and of 0, the
    script exits with status 0 after it has processed the input (the value
    5 is reported; with -1 the 2-sigma and 1-sigma tests fire as well, on
    the initial value of their windows). *)
Lemma nonpositive_stdev_is_accepted :
  let negative :=
    script "control_chart.py" false [Center (Some "0"%string); Stdev (Some "-1"%string)]
      ["5"%string] boot in
  let zero :=
    script "control_chart.py" false [Center (Some "0"%string); Stdev (Some "0"%string)]
      ["5"%string] boot in
  ~ (exit_status negative.1 <> 0%Z /\ exit_status zero.1 <> 0%Z)
  /\ exit_status negative.1 = 0%Z
  /\ exit_status zero.1 = 0%Z
  /\ stderr negative.2
     = [Message "%g is > 3 sigma" [AFloat (of_Z 5)];
        Message "%s is 2/3 points > 2 sigma" [AArray [of_Z 5; of_Z 0; of_Z 0]];
        Message "%s is 4/5 points > 1 sigma"
          [AArray [of_Z 5; of_Z 0; of_Z 0; of_Z 0; of_Z 0]]]
  /\ stderr zero.2 = [Message "%g is > 3 sigma" [AFloat (of_Z 5)]].
Proof.
  intros negative zero.
  assert (exit_status negative.1 = 0%Z) as Hn by (vm_compute; reflexivity).
  assert (exit_status zero.1 = 0%Z) as Hz by (vm_compute; reflexivity).
  split; [intros [H _]; by apply H|].
  split; [done|]. split; [done|]. split; vm_compute; reflexivity.
Qed.

(** C6. For the lines ["1.0"], the empty line, ["abc"] and ["2.0"],
    [load_stream] yields 1.0 and 2.0 in this order and writes one line, for
    ["abc"]. With centerline 1.5 and standard deviation 10 the script exits
    with status 0, that line is all it writes, and its windows are those of
    an engine fed 1.0 and 2.0. *)
Theorem malformed_line_is_skipped :
  let stdin := ["1.0"; EmptyString; "abc"; "2.0"]%string in
  let run :=
    script "control_chart.py" false [Center (Some "1.5"%string); Stdev (Some "10"%string)]
      stdin boot in
  drain (load_stream stdin) boot
  = (Ok [of_Z 1; of_Z 2],
     World [] [] [Message "invalid line %r" [AStr "abc"]])
  /\ run.1 = Raise (SystemExit 0)
  /\ stderr run.2 = [Message "invalid line %r" [AStr "abc"]]
  /\ heap run.2
     = heap (control_chart (iter [of_Z 1; of_Z 2])
               (Namespace.mk (Fin (3 # 2)) (of_Z 10)) boot).2.
Proof.
  intros stdin run. repeat split; vm_compute; reflexivity.
Qed.


(** C7. For a capacity above 0, whatever the initial value and the values
    appended, [Window.append] with its caught [IndexError] never raises and
    leaves in the object the buffer of the ring with modulo indexing; the
    array keeps its [n] slots and holds the latest [n] entries (the initial
    value counting as the oldest ones): each append overwrites the oldest. *)
Theorem window_is_ring_buffer (n : nat) (init : option pyfloat) (xs : list pyfloat)
    (h : list Window.t) (so se : list message) :
  0 < n ->
  let fill := default NaN init in
  let ring := Ring.appends (Ring.init n fill) xs in
  exists o,
    Window_feed n init xs (World h so se) = (Ok o, World (h ++ [o]) so se)
    /\ Window.data o = Ring.buffer ring
    /\ length (Window.data o) = n
    /\ Ring.chrono ring = drop (length xs) (replicate n fill ++ xs)
    /\ Window.data o ≡ₚ drop (length xs) (replicate n fill ++ xs).
Proof.
  intros Hn fill ring.
  exists (fold_left win_append xs (fresh n fill)).
  pose proof (sim_appends xs _ _ (sim_init n fill Hn)) as (Hd & Hlen & Hc & _).
  fold ring in Hd, Hlen, Hc.
  assert (Ring.chrono ring = drop (length xs) (replicate n fill ++ xs)) as Hchrono.
  { subst ring. rewrite chrono_appends; simpl; rewrite ?length_replicate; try lia.
    unfold Ring.chrono. simpl. by rewrite drop_0, app_nil_r. }
  split; [by apply Window_feed_spec|]. split; [done|]. split; [|split; [done|]].
  - rewrite fold_win_append_length. simpl. apply length_replicate.
  - rewrite Hd, <- Hchrono. apply chrono_Permutation.
Qed.

(** The example of the docstring of [Window]: after 0, ..., 9 a window of 4
    holds 8, 9, 6, 7. *)
Lemma window_is_ring_buffer_witness :
  exists o,
    Window_feed 4 None (map of_Z [0; 1; 2; 3; 4; 5; 6; 7; 8; 9]%Z) boot
    = (Ok o, World ([] ++ [o]) [] [])
    /\ Window.data o
       = Ring.buffer (Ring.appends (Ring.init 4 NaN)
                        (map of_Z [0; 1; 2; 3; 4; 5; 6; 7; 8; 9]%Z))
    /\ length (Window.data o) = 4
    /\ Ring.chrono (Ring.appends (Ring.init 4 NaN)
                      (map of_Z [0; 1; 2; 3; 4; 5; 6; 7; 8; 9]%Z))
       = drop 10 (replicate 4 NaN ++ map of_Z [0; 1; 2; 3; 4; 5; 6; 7; 8; 9]%Z)
    /\ Window.data o
       ≡ₚ drop 10 (replicate 4 NaN ++ map of_Z [0; 1; 2; 3; 4; 5; 6; 7; 8; 9]%Z).
Proof.
  apply (window_is_ring_buffer 4 None (map of_Z [0; 1; 2; 3; 4; 5; 6; 7; 8; 9]%Z) [] [] []).
  lia.
Defined.

Example window_docstring :
  (Window_feed 4 None (map of_Z [0; 1; 2; 3; 4; 5; 6; 7; 8; 9]%Z) boot).1
  = Ok (Window.mk 2 4 (map of_Z [8; 9; 6; 7]%Z)).
Proof. reflexivity. Qed.

(** A window of no slot cannot be appended to. *)
Example window_of_capacity_0 :
  (Window_feed 0 None [of_Z 1] boot).1 = Raise IndexError.
Proof. reflexivity. Qed.



(** C9. The lines [control_chart] writes depend on the parameters and on
    the values only: from any two states of the interpreter, two engines
    built from the same parameters and fed the same values return 0 and
    write the same lines in the same order; so do two engines run one after
    the other in the same process. *)
Theorem control_chart_deterministic (options : Namespace.t) (xs : list pyfloat)
    (w1 w2 : world) :
  (control_chart (iter xs) options w1).1 = Ok 0%Z
  /\ (control_chart (iter xs) options w2).1 = Ok 0%Z
  /\ written (control_chart (iter xs) options) w1
     = written (control_chart (iter xs) options) w2
  /\ written (control_chart (iter xs) options ;; control_chart (iter xs) options) w1
     = written (control_chart (iter xs) options) w1
       ++ written (control_chart (iter xs) options) w1.
Proof.
  destruct w1 as [h1 so1 se1], w2 as [h2 so2 se2].
  pose proof (fun h so se => control_chart_spec (iter xs) (value_events xs) options h so se
                               (iter_yields xs)) as Hrun.
  rewrite !Hrun. split; [done|]. split; [done|].
  rewrite !(written_spec _ _ _ _ _ _ _ _ (Hrun _ _ _)). split; [done|].
  unfold written at 1.
  rewrite (bind_ok _ _ _ _ _ (Hrun h1 so1 se1)), Hrun. cbn [snd stderr].
  rewrite <- (app_assoc se1). apply drop_app_length.
Qed.

(** C10. What [control_chart] does to the heap is what appending the values
    to the seven windows does, whether lines are written or not: the
    objects that were there are untouched, standard output too, and each
    window is the fresh window with the values appended. A test that has
    fired fires again on the next value when the window still meets the
    threshold: with centerline 0 and standard deviation 1 the 2-sigma test
    writes a line on the second and on the third 2.5. *)
Theorem diagnostics_leave_windows (options : Namespace.t) (xs : list pyfloat)
    (h : list Window.t) (so se : list message) :
  let m := Namespace.m options in
  let after := (control_chart (iter xs) options (World h so se)).2 in
  heap after = heap (windows_only options xs (World h so se)).2
  /\ heap after = h ++ map (fun n => fed n m xs) [3; 5; 8; 11; 14; 17; 20]
  /\ stdout after = so
  /\ written (feed test_2_sigma (Namespace.mk (of_Z 0) (of_Z 1))
                [Fin (5 # 2); Fin (5 # 2); Fin (5 # 2)]) (World h so se)
     = [Message "%s is 2/3 points > 2 sigma" [AArray [Fin (5 # 2); Fin (5 # 2); of_Z 0]];
        Message "%s is 2/3 points > 2 sigma" [AArray [Fin (5 # 2); Fin (5 # 2); Fin (5 # 2)]]].
Proof.
  intros m after. subst after.
  rewrite (control_chart_spec (iter xs) (value_events xs) options h so se (iter_yields xs)).
  rewrite windows_only_spec. simpl.
  rewrite engine_trace_feed, values_value_events.
  rewrite (engine_heap_fed options xs).
  split; [done|]. split; [done|]. split; [done|].
  erewrite written_spec; [|apply feed_test_2_sigma]. reflexivity.
Qed.

(** * More properties of the code *)

(** ** More on windows *)

Lemma cursor_appends xs : forall r,
  Ring.writeCursor (Ring.appends r xs)
  = (if decide (xs = []) then Ring.writeCursor r
     else (Ring.writeCursor r + length xs) `mod` Ring.capacity r).
Proof.
  unfold Ring.appends.
  induction xs as [|x xs IH]; intros r; [done|].
  cbn [fold_left]. rewrite IH. simpl.
  destruct (decide (xs = [])) as [->|Hne]; simpl.
  - done.
  - rewrite Nat.Div0.add_mod_idemp_l. f_equal. lia.
Qed.

Lemma capacity_appends xs : forall r,
  Ring.capacity (Ring.appends r xs) = Ring.capacity r.
Proof.
  unfold Ring.appends. induction xs as [|x xs IH]; intros r; [done|].
  cbn [fold_left]. by rewrite IH.
Qed.

Lemma cursor_fed n m xs :
  0 < n -> Ring.writeCursor (Ring.appends (Ring.init n m) xs) = length xs `mod` n.
Proof.
  intros Hn. rewrite cursor_appends. simpl.
  destruct (decide (xs = [])) as [->|_]; simpl; [by rewrite Nat.Div0.mod_0_l|done].
Qed.

(** The array of a window is its latest entries, rotated. *)
Lemma fed_layout n m xs :
  0 < n ->
  let r := length xs `mod` n in
  Window.data (fed n m xs)
  = drop (n - r) (latest n m xs) ++ take (n - r) (latest n m xs).
Proof.
  intros Hn r. unfold fed, latest.
  pose proof (sim_appends xs _ _ (sim_init n m Hn)) as (Hd & Hlen & Hc & _).
  rewrite capacity_appends in Hlen, Hc. simpl in Hlen, Hc.
  pose proof (chrono_appends xs (Ring.init n m)) as Hchrono.
  simpl in Hchrono. rewrite length_replicate in Hchrono.
  specialize (Hchrono eq_refl Hn).
  unfold Ring.chrono at 2 in Hchrono. simpl in Hchrono.
  rewrite drop_0, app_nil_r in Hchrono.
  rewrite <- Hchrono, Hd. unfold Ring.chrono.
  rewrite (cursor_fed n m xs Hn). fold r.
  set (b := Ring.buffer _) in *.
  assert (r < n) as Hr by (apply Nat.mod_upper_bound; lia).
  rewrite drop_app_length' by (rewrite length_drop; lia).
  rewrite take_app_length' by (rewrite length_drop; lia).
  by rewrite take_drop.
Qed.

Lemma fed_latest_Permutation n m xs :
  0 < n -> Window.data (fed n m xs) ≡ₚ latest n m xs.
Proof.
  intros Hn. rewrite (fed_layout n m xs Hn).
  rewrite Permutation_app_comm. by rewrite take_drop.
Qed.

Lemma latest_length n m xs : length (latest n m xs) = n.
Proof.
  unfold latest. rewrite length_drop, length_app, length_replicate. lia.
Qed.

(** The cursor after [k] appends. *)
Lemma win_append_idx o x :
  Window.idx (win_append o x)
  = if Window.idx o <? length (Window.data o) then Window.idx o + 1 else 1.
Proof. unfold win_append. by case_match. Qed.

Lemma idx_fed n m xs :
  0 < n ->
  Window.idx (fed n m xs)
  = match length xs with 0 => 0 | S j => j `mod` n + 1 end.
Proof.
  intros Hn. induction xs as [|x xs IH] using rev_ind; [done|].
  rewrite fed_snoc, win_append_idx, fed_length, IH.
  rewrite length_app. simpl length.
  replace (length xs + 1) with (S (length xs)) by lia.
  destruct (length xs) as [|j].
  - destruct (Nat.ltb_spec 0 n); [|lia]. by rewrite Nat.Div0.mod_0_l.
  - pose proof (Nat.mod_upper_bound j n ltac:(lia)) as Hlt.
    replace (S j) with (j + 1) by lia.
    rewrite <- (Nat.Div0.add_mod_idemp_l j 1 n).
    destruct (Nat.ltb_spec (j `mod` n + 1) n) as [Hs|Hs].
    + by rewrite (Nat.mod_small _ _ Hs).
    + replace (j `mod` n + 1) with n by lia. by rewrite Nat.Div0.mod_same.
Qed.

(** ** Counting over the latest values *)

Lemma np_sum_gt_Permutation d d' v :
  d ≡ₚ d' -> np_sum (np_gt d v) = np_sum (np_gt d' v).
Proof.
  induction 1 as [|x d d' _ IH|x y d|d d' d'' _ IH1 _ IH2]; simpl; lia || congruence.
Qed.

Lemma np_sum_lt_Permutation d d' v :
  d ≡ₚ d' -> np_sum (np_lt d v) = np_sum (np_lt d' v).
Proof.
  induction 1 as [|x d d' _ IH|x y d|d d' d'' _ IH1 _ IH2]; simpl; lia || congruence.
Qed.

Lemma latest_suffix n m xs run :
  length run = n -> latest n m (xs ++ run) = run.
Proof.
  intros Hn. unfold latest. rewrite app_assoc.
  rewrite drop_app_length'; [done|].
  rewrite !length_app, length_replicate. lia.
Qed.

Lemma latest_short n m xs :
  length xs <= n -> latest n m xs = replicate (n - length xs) m ++ xs.
Proof.
  intros Hn. unfold latest.
  replace n with (length xs + (n - length xs)) at 1 by lia.
  rewrite replicate_add, <- app_assoc.
  rewrite drop_app_length'; [done|]. by rewrite length_replicate.
Qed.

Lemma lines_latest (k n : nat) (m : pyfloat) (xs : list pyfloat)
    (above below : message) (lcl ucl : pyfloat) :
  0 < n ->
  let d := Window.data (fed n m xs) in
  (if k <=? np_sum (np_gt d ucl) then [above]
   else if k <=? np_sum (np_lt d lcl) then [below] else [])
  = fires k above below lcl ucl (latest n m xs).
Proof.
  intros Hn d. unfold fires.
  pose proof (fed_latest_Permutation n m xs Hn) as Hp. fold d in Hp.
  by rewrite (np_sum_gt_Permutation _ _ _ Hp), (np_sum_lt_Permutation _ _ _ Hp).
Qed.

Lemma tier_lines_latest m k n xs :
  0 < n ->
  let d := Window.data (fed n m xs) in
  tier_lines m k (fed n m xs)
  = fires k (Message "%s is %g/%g points > centerline" [AArray d; AInt k; AInt n])
            (Message "%s is %g/%g points < centerline" [AArray d; AInt k; AInt n])
            m m (latest n m xs).
Proof.
  intros Hn d. unfold tier_lines, fires. rewrite fed_n.
  pose proof (fed_latest_Permutation n m xs Hn) as Hp. fold d in Hp. fold d.
  by rewrite (np_sum_gt_Permutation _ _ _ Hp), (np_sum_lt_Permutation _ _ _ Hp).
Qed.

Lemma written_feed_test_2_sigma_snoc options xs x h so se :
  written (feed test_2_sigma options (xs ++ [x])) (World h so se)
  = written (feed test_2_sigma options xs) (World h so se)
    ++ sigma2_lines (limit options 2).1 (limit options 2).2
         (Window.data (fed 3 (Namespace.m options) (xs ++ [x]))).
Proof.
  rewrite !(written_spec _ _ _ _ _ _ _ _ (feed_test_2_sigma options _ h so se)).
  apply window_trace_snoc.
Qed.

Lemma written_feed_test_1_sigma_snoc options xs x h so se :
  written (feed test_1_sigma options (xs ++ [x])) (World h so se)
  = written (feed test_1_sigma options xs) (World h so se)
    ++ sigma1_lines (limit options 1).1 (limit options 1).2
         (Window.data (fed 5 (Namespace.m options) (xs ++ [x]))).
Proof.
  rewrite !(written_spec _ _ _ _ _ _ _ _ (feed_test_1_sigma options _ h so se)).
  apply window_trace_snoc.
Qed.

Lemma written_feed_test_cl_shift_snoc options xs x h so se :
  let m := Namespace.m options in
  written (feed test_cl_shift options (xs ++ [x])) (World h so se)
  = written (feed test_cl_shift options xs) (World h so se)
    ++ tier_lines m 8 (fed 8 m (xs ++ [x]))
    ++ tier_lines m 10 (fed 11 m (xs ++ [x]))
    ++ tier_lines m 12 (fed 14 m (xs ++ [x]))
    ++ tier_lines m 14 (fed 17 m (xs ++ [x]))
    ++ tier_lines m 16 (fed 20 m (xs ++ [x])).
Proof.
  intros m.
  rewrite !(written_spec _ _ _ _ _ _ _ _ (feed_test_cl_shift options _ h so se)).
  rewrite shift_trace_snoc, map_map. unfold sizes, thresholds, fed.
  cbn [map tiers_lines]. by rewrite !app_nil_r.
Qed.

Lemma feed_test_3_sigma_values options zs h so se :
  feed test_3_sigma options zs (World h so se)
  = (Ok tt,
     World h so
       (se ++ flat_map (sigma3_lines (limit options 3).1 (limit options 3).2) zs)).
Proof.
  unfold feed, test_3_sigma. unfold ret at 1. unfold bind at 1. cbn [limit fst snd].
  revert se. induction zs as [|z zs IH]; intros se; simpl.
  - by rewrite app_nil_r.
  - rewrite (bind_ok _ _ _ _ _ (test_3_sigma_test_spec _ _ z h so se)).
    rewrite IH. by rewrite <- app_assoc.
Qed.

(** ** Reading the input *)

Lemma drain_yields : forall stream events h so se,
  Forall2 yields stream events ->
  drain stream (World h so se)
  = (Ok (values events), World h so (se ++ concat (map snd events))).
Proof.
  induction stream as [|next stream IH]; intros events h so se Hev.
  - apply Forall2_nil_inv_l in Hev as ->. simpl. by rewrite app_nil_r.
  - apply Forall2_cons_inv_l in Hev as ([y msgs] & events' & Hy & Hev & ->).
    cbn [drain]. rewrite (bind_ok _ _ _ _ _ (Hy h so se)).
    rewrite (bind_ok _ _ _ _ _ (IH events' h so _ Hev)).
    unfold ret, values. simpl. rewrite <- app_assoc. by destruct y.
Qed.

(** A line is skipped, read as a value, or reported. *)
Lemma line_event_cases line :
  (nonblank line = false /\ line_event line = (None, []))
  \/ (nonblank line = true
      /\ ((exists x, line_event line = (Some x, []))
          \/ line_event line = (None, [Message "invalid line %r" [AStr line]]))).
Proof.
  unfold nonblank, line_event, load_line.
  destruct (String.eqb (strip line) EmptyString); [by left|right].
  split; [done|].
  set (clean := match String.get 0 (strip line) with
                | Some c => _ | None => _ end).
  unfold try_except, bind, float, ret, raise, err_out.
  destruct (float_of_string clean); simpl; eauto.
Qed.

Lemma lstrip_with_snoc p l c :
  p c = false -> lstrip_with p (l ++ [c]) = lstrip_with p l ++ [c].
Proof.
  intros Hc. induction l as [|a l IH]; simpl; [by rewrite Hc|].
  by destruct (p a).
Qed.

Lemma strip_with_head p c l :
  p c = false -> exists t, strip_with p (c :: l) = c :: t.
Proof.
  intros Hc. unfold strip_with. simpl lstrip_with at 2. rewrite Hc.
  simpl rev at 2. rewrite (lstrip_with_snoc p _ c Hc), rev_unit. eauto.
Qed.

(** [float] refuses a string that starts with a quote. *)
Lemma float_of_quoted c s :
  (Ascii.eqb c dquote || Ascii.eqb c "'")%bool = true ->
  float_of_string (String c s) = None.
Proof.
  intros Hc. unfold float_of_string. simpl list_ascii_of_string.
  apply orb_true_iff in Hc as [Hc|Hc]; apply Ascii.eqb_eq in Hc; subst c.
  - destruct (strip_with_head float_isspace dquote (list_ascii_of_string s) eq_refl)
      as [t ->].
    reflexivity.
  - destruct (strip_with_head float_isspace "'"%char (list_ascii_of_string s) eq_refl)
      as [t ->].
    reflexivity.
Qed.

(** A line that [float] reads once stripped is read by [load_stream] as the
    same value, silently. *)
Lemma line_event_float line x :
  float_of_string (strip line) = Some x -> line_event line = (Some x, []).
Proof.
  intros Hx. unfold line_event, load_line.
  destruct (strip line) as [|c s] eqn:Hclean; [discriminate Hx|].
  simpl String.eqb. cbn [String.get].
  destruct (Ascii.eqb c dquote || Ascii.eqb c "'")%bool eqn:Hq.
  - by rewrite (float_of_quoted c s Hq) in Hx.
  - unfold try_except, bind, float, ret. by rewrite Hx.
Qed.

(** ** class Window *)

(** X1. A window of no slot cannot be appended to: the first [append]
    raises [IndexError] (the write repeated in the [except] clause fails as
    the first one did), whatever the initial value and the value. *)
Theorem window_of_no_slot_raises (init : option pyfloat) (x : pyfloat)
    (xs : list pyfloat) (h : list Window.t) (so se : list message) :
  Window_feed 0 init (x :: xs) (World h so se)
  = (Raise IndexError, World (h ++ [Window.mk 0 0 []]) so se).
Proof.
  unfold Window_feed.
  rewrite (bind_ok _ _ _ _ _ (Window_init_any 0 init h so se)).
  cbn [for_].
  by rewrite (bind_raise _ _ _ _ _
    (bind_raise _ _ _ _ _
       (Window_append_empty h [] (fresh 0 (default NaN init)) so se (length h) x
          eq_refl eq_refl))).
Qed.

(** X2. The cursor of a window of [n > 0] slots after [k] appends: 0 before
    the first one, then [(k - 1) mod n + 1]. It runs from 1 to [n]: it is
    reset, by the [except] clause, on the appends [n + 1], [2n + 1], ...;
    the attribute [n] never changes. *)
Theorem window_cursor (n : nat) (init : option pyfloat) (xs : list pyfloat)
    (h : list Window.t) (so se : list message) :
  0 < n ->
  exists o,
    Window_feed n init xs (World h so se) = (Ok o, World (h ++ [o]) so se)
    /\ Window.n o = n
    /\ Window.idx o = match length xs with 0 => 0 | S j => j `mod` n + 1 end
    /\ Window.idx o <= n.
Proof.
  intros Hn. eexists. split; [by apply Window_feed_spec|].
  change (fold_left win_append xs (fresh n (default NaN init)))
    with (fed n (default NaN init) xs).
  rewrite fed_n, (idx_fed n _ xs Hn). split; [done|]. split; [done|].
  destruct (length xs) as [|j]; [lia|].
  pose proof (Nat.mod_upper_bound j n). lia.
Qed.

Lemma window_cursor_witness :
  exists o,
    Window_feed 4 None (map of_Z [0; 1; 2; 3; 4; 5; 6; 7; 8; 9]%Z) (World [] [] [])
    = (Ok o, World ([] ++ [o]) [] [])
    /\ Window.n o = 4
    /\ Window.idx o = match length (map of_Z [0; 1; 2; 3; 4; 5; 6; 7; 8; 9]%Z) with
                      | 0 => 0 | S j => j `mod` 4 + 1 end
    /\ Window.idx o <= 4.
Proof.
  apply (window_cursor 4 None (map of_Z [0; 1; 2; 3; 4; 5; 6; 7; 8; 9]%Z) [] [] []).
  lia.
Defined.

(** X3. The array of a window of [n > 0] slots after the values [xs]: the
    latest [n] entries (the initial value, NaN when none is given, for the
    slots never written), rotated so that the oldest sits at position
    [length xs mod n]. Until the window is full it reads as the values in
    order, followed by the initial value. *)
Theorem window_layout (n : nat) (init : option pyfloat) (xs : list pyfloat)
    (h : list Window.t) (so se : list message) :
  0 < n ->
  let fill := default NaN init in
  let r := length xs `mod` n in
  exists o,
    Window_feed n init xs (World h so se) = (Ok o, World (h ++ [o]) so se)
    /\ Window.data o
       = drop (n - r) (latest n fill xs) ++ take (n - r) (latest n fill xs)
    /\ (length xs <= n -> Window.data o = xs ++ replicate (n - length xs) fill).
Proof.
  intros Hn fill r. subst fill r. eexists. split; [by apply Window_feed_spec|].
  change (fold_left win_append xs (fresh n (default NaN init)))
    with (fed n (default NaN init) xs).
  split; [by apply fed_layout|].
  intros Hk. by rewrite (fed_prefix n _ xs Hk).
Qed.

Lemma window_layout_witness :
  exists o,
    Window_feed 4 None (map of_Z [0; 1; 2; 3; 4; 5; 6; 7; 8; 9]%Z) (World [] [] [])
    = (Ok o, World ([] ++ [o]) [] [])
    /\ Window.data o
       = drop (4 - 10 `mod` 4)
           (latest 4 NaN (map of_Z [0; 1; 2; 3; 4; 5; 6; 7; 8; 9]%Z))
         ++ take (4 - 10 `mod` 4)
              (latest 4 NaN (map of_Z [0; 1; 2; 3; 4; 5; 6; 7; 8; 9]%Z))
    /\ (10 <= 4 ->
        Window.data o
        = map of_Z [0; 1; 2; 3; 4; 5; 6; 7; 8; 9]%Z ++ replicate (4 - 10) NaN).
Proof.
  apply (window_layout 4 None (map of_Z [0; 1; 2; 3; 4; 5; 6; 7; 8; 9]%Z) [] [] []).
  lia.
Defined.

(** ** The tests *)

(** X4. What the 2-sigma and the 1-sigma tests write for a value depends on
    the latest 3 (5) values only, the initial centerline standing for the
    values missing at the start: the upper line when at least 2 (4) of them
    are above the upper limit, else the lower line when at least 2 (4) are
    below the lower limit, the limits being those the interpreter computes.
    The array printed is the array of the window: these values, the oldest
    at index [k mod 3] ([k mod 5]) after [k] values. *)
Theorem clustering_tests_count_latest (options : Namespace.t) (xs : list pyfloat)
    (x : pyfloat) (h : list Window.t) (so se : list message) :
  let m := Namespace.m options in
  let s := Namespace.s options in
  let all := xs ++ [x] in
  let shown (n : nat) :=
    drop (n - length all `mod` n) (latest n m all)
    ++ take (n - length all `mod` n) (latest n m all) in
  (exists idx log,
     feed Rounded.test_2_sigma options all (World h so se)
     = (Ok tt, World (h ++ [Window.mk idx 3 (shown 3)]) so (se ++ log)))
  /\ (exists idx log,
        feed Rounded.test_1_sigma options all (World h so se)
        = (Ok tt, World (h ++ [Window.mk idx 5 (shown 5)]) so (se ++ log)))
  /\ written (feed Rounded.test_2_sigma options all) (World h so se)
     = written (feed Rounded.test_2_sigma options xs) (World h so se)
       ++ fires 2 (Message "%s is 2/3 points > 2 sigma" [AArray (shown 3)])
                  (Message "%s is 2/3 points < 2 sigma" [AArray (shown 3)])
                  (m - of_Z 2 * s)%b64 (m + of_Z 2 * s)%b64 (latest 3 m all)
  /\ written (feed Rounded.test_1_sigma options all) (World h so se)
     = written (feed Rounded.test_1_sigma options xs) (World h so se)
       ++ fires 4 (Message "%s is 4/5 points > 1 sigma" [AArray (shown 5)])
                  (Message "%s is 4/5 points < 1 sigma" [AArray (shown 5)])
                  (m - of_Z 1 * s)%b64 (m + of_Z 1 * s)%b64 (latest 5 m all).
Proof.
  intros m s all shown.
  assert (forall n, 0 < n -> Window.data (fed n m all) = shown n) as Hshown.
  { intros n Hn. subst shown. cbv beta. by rewrite (fed_layout n m all Hn). }
  assert (forall n, 0 < n ->
            fed n m all = Window.mk (Window.idx (fed n m all)) n (shown n)) as Hfed.
  { intros n Hn. pose proof (fed_n n m all) as H1. pose proof (Hshown n Hn) as H2.
    destruct (fed n m all) as [i k d]. simpl in *. by subst. }
  split; [|split; [|split]].
  - eexists. eexists. rewrite feed_rounded_test_2_sigma. fold m all.
    by rewrite (Hfed 3) at 1 by lia.
  - eexists. eexists. rewrite feed_rounded_test_1_sigma. fold m all.
    by rewrite (Hfed 5) at 1 by lia.
  - rewrite !(written_spec _ _ _ _ _ _ _ _ (feed_rounded_test_2_sigma options _ h so se)).
    rewrite <- (Hshown 3) by lia. subst all.
    rewrite window_trace_snoc. f_equal.
    apply (lines_latest 2 3 m (xs ++ [x])); lia.
  - rewrite !(written_spec _ _ _ _ _ _ _ _ (feed_rounded_test_1_sigma options _ h so se)).
    rewrite <- (Hshown 5) by lia. subst all.
    rewrite window_trace_snoc. f_equal.
    apply (lines_latest 4 5 m (xs ++ [x])); lia.
Qed.

(** X5. What the centerline-shift test writes for a value: for each tier
    in turn, the [>] line when at least [k] of the latest [n] values are
    above the centerline, else the [<] line when at least [k] are below,
    for [k/n] = 8/8, 10/11, 12/14, 14/17, 16/20. *)
Theorem cl_shift_counts_latest (options : Namespace.t) (xs : list pyfloat)
    (x : pyfloat) (h : list Window.t) (so se : list message) :
  let m := Namespace.m options in
  let tier (k n : nat) :=
    let d := Window.data (fed n m (xs ++ [x])) in
    fires k (Message "%s is %g/%g points > centerline" [AArray d; AInt k; AInt n])
            (Message "%s is %g/%g points < centerline" [AArray d; AInt k; AInt n])
            m m (latest n m (xs ++ [x])) in
  Forall (fun n => Window.data (fed n m (xs ++ [x])) ≡ₚ latest n m (xs ++ [x]))
    [8; 11; 14; 17; 20]
  /\ written (feed test_cl_shift options (xs ++ [x])) (World h so se)
     = written (feed test_cl_shift options xs) (World h so se)
       ++ tier 8 8 ++ tier 10 11 ++ tier 12 14 ++ tier 14 17 ++ tier 16 20.
Proof.
  intros m tier. split.
  - repeat constructor; apply fed_latest_Permutation; lia.
  - rewrite written_feed_test_cl_shift_snoc. subst tier. cbv beta.
    by rewrite !tier_lines_latest by lia.
Qed.

(** X6. A run of eight values above the centerline is reported by the 8/8
    tier on its eighth value wherever it occurs in the stream: the line
    comes first among those the centerline-shift test writes for that
    value, before those of the four other tiers, and the array it shows is
    the array of the window of 8 slots: the run, the oldest of its values
    at index [k mod 8] after [k] values. *)
Theorem run_of_8_is_reported (options : Namespace.t) (xs run : list pyfloat)
    (x : pyfloat) (h : list Window.t) (so se : list message) :
  let m := Namespace.m options in
  let all := xs ++ run ++ [x] in
  let shown :=
    drop (8 - length all `mod` 8) (run ++ [x])
    ++ take (8 - length all `mod` 8) (run ++ [x]) in
  length run = 7 ->
  Forall (fun v => (v >? m)%py = true) (run ++ [x]) ->
  (exists idx os log,
     feed test_cl_shift options all (World h so se)
     = (Ok tt, World (h ++ Window.mk idx 8 shown :: os) so (se ++ log)))
  /\ written (feed test_cl_shift options all) (World h so se)
     = written (feed test_cl_shift options (xs ++ run)) (World h so se)
       ++ Message "%s is %g/%g points > centerline" [AArray shown; AInt 8; AInt 8]
          :: tier_lines m 10 (fed 11 m all)
          ++ tier_lines m 12 (fed 14 m all)
          ++ tier_lines m 14 (fed 17 m all)
          ++ tier_lines m 16 (fed 20 m all).
Proof.
  intros m all shown Hlen Hrun.
  assert (all = (xs ++ run) ++ [x]) as Hall by (subst all; by rewrite <- app_assoc).
  assert (latest 8 m all = run ++ [x]) as Hlatest.
  { subst all. apply latest_suffix. rewrite length_app. simpl. lia. }
  assert (Window.data (fed 8 m all) = shown) as Hshown.
  { subst shown. by rewrite (fed_layout 8 m all ltac:(lia)), Hlatest. }
  split.
  - exists (Window.idx (fed 8 m all)). eexists. eexists.
    rewrite feed_test_cl_shift. unfold sizes. cbn [map]. fold m.
    pose proof (fed_n 8 m all) as H1.
    destruct (fed 8 m all) as [i k d]. simpl in *. by subst.
  - rewrite Hall, written_feed_test_cl_shift_snoc. rewrite <- Hall. fold m.
    f_equal. rewrite (tier_lines_latest m 8 8) by lia.
    unfold fires. rewrite Hlatest, (np_sum_gt_all _ _ Hrun), length_app, Hlen, Hshown.
    reflexivity.
Qed.

Lemma run_of_8_is_reported_witness :
  let m := of_Z 0 in
  let all := [of_Z (-1)] ++ replicate 7 (of_Z 1) ++ [of_Z 2] in
  written (feed test_cl_shift (Namespace.mk m (of_Z 1)) all) (World [] [] [])
  = written (feed test_cl_shift (Namespace.mk m (of_Z 1))
               ([of_Z (-1)] ++ replicate 7 (of_Z 1))) (World [] [] [])
    ++ Message "%s is %g/%g points > centerline"
         [AArray (of_Z 2 :: replicate 7 (of_Z 1)); AInt 8; AInt 8]
       :: tier_lines m 10 (fed 11 m all)
       ++ tier_lines m 12 (fed 14 m all)
       ++ tier_lines m 14 (fed 17 m all)
       ++ tier_lines m 16 (fed 20 m all).
Proof.
  intros m all.
  apply (run_of_8_is_reported (Namespace.mk (of_Z 0) (of_Z 1)) [of_Z (-1)]
           (replicate 7 (of_Z 1)) (of_Z 2) [] [] []).
  - reflexivity.
  - repeat constructor.
Defined.

(** ** Lines and thresholds *)









(** Lines per value. *)
Lemma sigma3_lines_length lcl ucl x : length (sigma3_lines lcl ucl x) <= 1.
Proof. unfold sigma3_lines. repeat case_match; simpl; lia. Qed.

Lemma sigma2_lines_length lcl ucl d : length (sigma2_lines lcl ucl d) <= 1.
Proof. unfold sigma2_lines. repeat case_match; simpl; lia. Qed.

Lemma sigma1_lines_length lcl ucl d : length (sigma1_lines lcl ucl d) <= 1.
Proof. unfold sigma1_lines. repeat case_match; simpl; lia. Qed.

Lemma tier_lines_length cl k o : length (tier_lines cl k o) <= 1.
Proof. unfold tier_lines. repeat case_match; simpl; lia. Qed.

Lemma tiers_lines_length cl ns : forall os, length (tiers_lines cl ns os) <= length ns.
Proof.
  induction ns as [|k ns IH]; intros os; [simpl; lia|].
  destruct os as [|o os]; simpl; [lia|].
  rewrite length_app. pose proof (tier_lines_length cl k o). specialize (IH os). lia.
Qed.

Lemma engine_lines_length options e x : length (engine_lines options e x) <= 8.
Proof.
  unfold engine_lines. rewrite !length_app.
  pose proof (sigma3_lines_length (limit options 3).1 (limit options 3).2 x).
  pose proof (sigma2_lines_length (limit options 2).1 (limit options 2).2 (Window.data (e2 e))).
  pose proof (sigma1_lines_length (limit options 1).1 (limit options 1).2 (Window.data (e1 e))).
  pose proof (tiers_lines_length (Namespace.m options) thresholds (eshift e)).
  unfold thresholds in *. simpl length in *. lia.
Qed.

Lemma engine_trace_values_length options xs : forall e,
  length (engine_trace options e (value_events xs)).2 <= 8 * length xs.
Proof.
  induction xs as [|x xs IH]; intros e; simpl; [lia|].
  specialize (IH (engine_feed e x)).
  destruct (engine_trace options (engine_feed e x) (value_events xs)) as [e' log].
  simpl in *. rewrite length_app.
  pose proof (engine_lines_length options (engine_feed e x) x). lia.
Qed.

(** X8. [control_chart] writes at most 8 lines for a value (one for each
    of the 3-sigma, 2-sigma and 1-sigma tests and one for each of the five
    tiers), hence at most [8 * k] lines for [k] values; it writes nothing
    when there is no value. *)
Theorem at_most_8_lines_per_value (options : Namespace.t) (xs : list pyfloat)
    (x : pyfloat) (w : world) :
  written (control_chart (iter []) options) w = []
  /\ length (written (control_chart (iter xs) options) w) <= 8 * length xs
  /\ exists lines,
       written (control_chart (iter (xs ++ [x])) options) w
       = written (control_chart (iter xs) options) w ++ lines
       /\ length lines <= 8.
Proof.
  destruct w as [h so se].
  pose proof (fun ys => written_spec _ _ _ _ _ _ _ _
                 (control_chart_spec (iter ys) (value_events ys) options h so se
                    (iter_yields ys))) as Hw.
  rewrite !Hw. split; [done|]. split; [apply engine_trace_values_length|].
  generalize (engine_fresh options). clear Hw.
  induction xs as [|y xs IH]; intros e; simpl.
  - eexists. split; [done|]. rewrite app_nil_r. apply engine_lines_length.
  - destruct (IH (engine_feed e y)) as (lines & Heq & Hlen).
    destruct (engine_trace options (engine_feed e y) (value_events (xs ++ [x])))
      as [e1 log1].
    destruct (engine_trace options (engine_feed e y) (value_events xs)) as [e0 log0].
    simpl in *. exists lines. split; [|done]. rewrite Heq. by rewrite <- app_assoc.
Qed.

(** X9. The 3-sigma test keeps no state: it allocates nothing, leaves the
    heap as it finds it, and what it writes for a value does not depend on
    the values before it. *)
Theorem three_sigma_is_stateless (options : Namespace.t) (xs ys : list pyfloat)
    (h h' : list Window.t) (so so' se se' : list message) :
  heap (feed test_3_sigma options xs (World h so se)).2 = h
  /\ (feed test_3_sigma options xs (World h so se)).1 = Ok tt
  /\ written (feed test_3_sigma options (xs ++ ys)) (World h so se)
     = written (feed test_3_sigma options xs) (World h so se)
       ++ written (feed test_3_sigma options ys) (World h' so' se').
Proof.
  pose proof (feed_test_3_sigma_values options) as Hfeed.
  rewrite !Hfeed. split; [done|]. split; [done|].
  rewrite !(written_spec _ _ _ _ _ _ _ _ (Hfeed _ _ _ _)).
  apply flat_map_app.
Qed.

(** X10. In a tier of the centerline-shift test the two sides never reach
    the threshold together, whatever the parameters and the values: a value
    is not above and below the centerline at once and each threshold is
    more than half the window. The [elif] never hides a lower line behind
    an upper one. *)
Theorem tier_sides_exclusive (options : Namespace.t) (xs : list pyfloat)
    (h : list Window.t) (so se : list message) :
  let m := Namespace.m options in
  exists os log,
    feed test_cl_shift options xs (World h so se)
    = (Ok tt, World (h ++ os) so (se ++ log))
    /\ Forall2 (fun k o =>
                  ~ (k <= np_sum (np_gt (Window.data o) m)
                     /\ k <= np_sum (np_lt (Window.data o) m)))
         [8; 10; 12; 14; 16] os.
Proof.
  intros m. eexists. eexists. split; [apply feed_test_cl_shift|].
  assert (forall n, np_sum (np_gt (Window.data (fed n m xs)) m)
                    + np_sum (np_lt (Window.data (fed n m xs)) m) <= n) as Hsum.
  { intros n. rewrite <- (fed_length n m xs) at 3. apply counts_share.
    apply Forall_true. intros v Hv. by apply ltb_asym. }
  unfold sizes. simpl map. fold m.
  repeat constructor; intros [? ?].
  - specialize (Hsum 8). lia.
  - specialize (Hsum 11). lia.
  - specialize (Hsum 14). lia.
  - specialize (Hsum 17). lia.
  - specialize (Hsum 20). lia.
Qed.

Lemma line_events_account lines :
  length (values (line_events lines))
  + length (concat (map snd (line_events lines)))
  = length (List.filter nonblank lines)
  /\ Forall (fun msg => exists line,
               line ∈ lines /\ msg = Message "invalid line %r" [AStr line])
       (concat (map snd (line_events lines))).
Proof.
  unfold line_events, values.
  induction lines as [|line lines [IHn IHm]]; [by split|].
  assert (Forall (fun msg => exists l, l ∈ line :: lines
                                       /\ msg = Message "invalid line %r" [AStr l])
            (concat (map snd (map line_event lines)))) as IHm'.
  { eapply Forall_impl; [exact IHm|]. intros msg (l & Hl & ->).
    exists l. split; [by right|done]. }
  cbn [map concat List.filter omap].
  destruct (line_event_cases line) as [[Hb ->]|[Hb [[x ->]| ->]]]; rewrite Hb; simpl.
  - by split.
  - split; [f_equal; exact IHn|done].
  - split; [rewrite Nat.add_succ_r; f_equal; exact IHn|]. constructor; [|done]. exists line. split; [by left|done].
Qed.

(** X11. [load_stream] never fails and touches neither the heap nor
    standard output. Every line that is not blank gives exactly one value or
    exactly one [invalid line] message, which quotes the line; blank lines
    give nothing. *)
Theorem load_stream_accounts_for_every_line (input_stream : list string)
    (h : list Window.t) (so se : list message) :
  exists vs msgs,
    drain (load_stream input_stream) (World h so se)
    = (Ok vs, World h so (se ++ msgs))
    /\ length vs + length msgs = length (List.filter nonblank input_stream)
    /\ Forall (fun msg => exists line,
                 line ∈ input_stream /\ msg = Message "invalid line %r" [AStr line])
         msgs.
Proof.
  eexists. eexists. split.
  - apply drain_yields, load_stream_yields.
  - apply line_events_account.
Qed.

(** The lines of the tests are not [invalid line] messages. *)
Lemma tiers_lines_valid cl ns : forall os,
  List.filter invalid_line (tiers_lines cl ns os) = []
  /\ List.filter (fun msg => negb (invalid_line msg)) (tiers_lines cl ns os)
     = tiers_lines cl ns os.
Proof.
  induction ns as [|k ns IH]; intros os; [done|].
  destruct os as [|o os]; [done|]. simpl.
  rewrite !List.filter_app. destruct (IH os) as [-> ->].
  unfold tier_lines. repeat case_match; done.
Qed.

Lemma engine_lines_valid options e x :
  List.filter invalid_line (engine_lines options e x) = []
  /\ List.filter (fun msg => negb (invalid_line msg)) (engine_lines options e x)
     = engine_lines options e x.
Proof.
  unfold engine_lines. rewrite !List.filter_app.
  destruct (tiers_lines_valid (Namespace.m options) thresholds (eshift e)) as [-> ->].
  unfold sigma3_lines, sigma2_lines, sigma1_lines. repeat case_match; done.
Qed.

Lemma line_event_invalid line :
  List.filter invalid_line (line_event line).2 = (line_event line).2
  /\ List.filter (fun msg => negb (invalid_line msg)) (line_event line).2 = [].
Proof.
  destruct (line_event_cases line) as [[_ ->]|[_ [[x ->]| ->]]]; done.
Qed.

Lemma engine_trace_filter options events :
  Forall (fun ev : option pyfloat * list message =>
            List.filter invalid_line ev.2 = ev.2
            /\ List.filter (fun msg => negb (invalid_line msg)) ev.2 = []) events ->
  forall e,
    (engine_trace options e events).1
    = (engine_trace options e (value_events (values events))).1
    /\ List.filter (fun msg => negb (invalid_line msg)) (engine_trace options e events).2
       = (engine_trace options e (value_events (values events))).2
    /\ List.filter invalid_line (engine_trace options e events).2
       = concat (map snd events).
Proof.
  induction 1 as [|[[x|] msgs] events [Hi Hv] _ IH]; intros e; [done| |].
  - change (values ((Some x, msgs) :: events)) with (x :: values events).
    change (value_events (x :: values events))
      with ((Some x, []) :: value_events (values events)).
    cbn [engine_trace map concat snd]. simpl in Hi, Hv.
    destruct (IH (engine_feed e x)) as (H1 & H2 & H3).
    destruct (engine_trace options (engine_feed e x) events) as [e1 log1].
    destruct (engine_trace options (engine_feed e x) (value_events (values events)))
      as [e0 log0].
    cbn [fst snd] in *. rewrite !List.filter_app, Hi, Hv, H2, H3.
    by destruct (engine_lines_valid options (engine_feed e x) x) as [-> ->].
  - change (values ((None, msgs) :: events)) with (values events).
    cbn [engine_trace map concat snd]. simpl in Hi, Hv.
    destruct (IH e) as (H1 & H2 & H3).
    destruct (engine_trace options e events) as [e1 log1].
    destruct (engine_trace options e (value_events (values events))) as [e0 log0].
    cbn [fst snd] in *. by rewrite !List.filter_app, Hi, Hv, H2, H3.
Qed.

Lemma engine_trace_lines options lines e :
  let run := engine_trace options e (line_events lines) in
  let ref := engine_trace options e (value_events (values (line_events lines))) in
  run.1 = ref.1
  /\ List.filter (fun msg => negb (invalid_line msg)) run.2 = ref.2
  /\ List.filter invalid_line run.2 = concat (map snd (line_events lines)).
Proof.
  apply engine_trace_filter. unfold line_events.
  apply Forall_map, Forall_true. intros line. apply line_event_invalid.
Qed.

(** X12. Lines that are not numbers do not reach the tests: on the input
    lines, [control_chart] returns 0 and leaves the windows it leaves on the
    values [load_stream] yields; the lines it writes are, in order, those it
    writes on these values, with the [invalid line] messages of
    [load_stream] in between. *)
Theorem malformed_lines_do_not_reach_the_tests (options : Namespace.t)
    (input_stream : list string) (h : list Window.t) (so se : list message) :
  let w := World h so se in
  exists vs msgs,
    drain (load_stream input_stream) w = (Ok vs, World h so (se ++ msgs))
    /\ (control_chart (load_stream input_stream) options w).1 = Ok 0%Z
    /\ heap (control_chart (load_stream input_stream) options w).2
       = heap (control_chart (iter vs) options w).2
    /\ stdout (control_chart (load_stream input_stream) options w).2 = so
    /\ List.filter (fun msg => negb (invalid_line msg))
         (written (control_chart (load_stream input_stream) options) w)
       = written (control_chart (iter vs) options) w
    /\ List.filter invalid_line
         (written (control_chart (load_stream input_stream) options) w)
       = msgs.
Proof.
  intros w. subst w. eexists. eexists.
  split; [apply drain_yields, load_stream_yields|].
  pose proof (control_chart_spec (load_stream input_stream) (line_events input_stream)
                options h so se (load_stream_yields input_stream)) as Hrun.
  pose proof (control_chart_spec (iter (values (line_events input_stream)))
                (value_events (values (line_events input_stream)))
                options h so se (iter_yields _)) as Href.
  rewrite (written_spec _ _ _ _ _ _ _ _ Hrun), (written_spec _ _ _ _ _ _ _ _ Href).
  rewrite Hrun, Href. cbn [fst snd heap stdout].
  destruct (engine_trace_lines options input_stream (engine_fresh options))
    as (H1 & H2 & H3).
  by rewrite H1, H2, H3.
Qed.

(** ** The other scripts *)

Lemma comprehension_float (f : string -> string) lines w :
  comprehension (fun line => float (f line)) lines w
  = match mapM (fun line => float_of_string (f line)) lines with
    | Some vs => (Ok vs, w)
    | None => (Raise ValueError, w)
    end.
Proof.
  induction lines as [|line lines IH]; [done|].
  cbn [comprehension mapM]. unfold bind at 1, float at 1.
  destruct (float_of_string (f line)) as [v|]; simpl; [|done].
  unfold bind at 1. rewrite IH.
  by destruct (mapM (fun line => float_of_string (f line)) lines).
Qed.

(** X13. The reading of the data in [fit-in-py.py] and [plot-in-py.py]
    stops at the first line that is not a number once stripped, a blank
    line included: [ValueError] is raised and nothing has been written.
    When standard input is a terminal the scripts write their usage to
    standard error and exit with status 1. *)
Theorem read_data_rejects (file : string) (stdin : list string) (line : string)
    (h : list Window.t) (so se : list message) :
  read_data file true stdin (World h so se)
  = (Raise (SystemExit 1),
     World h so (se ++ [Message "usage: cat data.log | python %s" [AStr file]]))
  /\ (line ∈ stdin -> float_of_string (strip line) = None ->
      read_data file false stdin (World h so se) = (Raise ValueError, World h so se))
  /\ (nonblank line = false -> float_of_string (strip line) = None).
Proof.
  split; [done|]. split.
  - intros Hin Hline. unfold read_data. unfold ret at 1. unfold bind at 1.
    rewrite comprehension_float.
    destruct (mapM _ stdin) as [vs|] eqn:Hm; [|done].
    apply mapM_Some in Hm.
    apply list_elem_of_lookup in Hin as [i Hi].
    destruct (Forall2_lookup_l _ _ _ _ _ Hm Hi) as (v & _ & Hv). congruence.
  - unfold nonblank. intros Hb. apply negb_false_iff, String.eqb_eq in Hb.
    by rewrite Hb.
Qed.

Lemma read_data_rejects_witness :
  read_data "fit-in-py.py" false ["1.0"; EmptyString; "2.0"]%string (World [] [] [])
  = (Raise ValueError, World [] [] []).
Proof.
  apply (read_data_rejects "fit-in-py.py" ["1.0"; EmptyString; "2.0"]%string EmptyString
           [] [] []).
  - apply list_elem_of_In. simpl. auto.
  - reflexivity.
Defined.

(** X14. Data that [fit-in-py.py] and [plot-in-py.py] can read are read by
    [load_stream] of [control_chart.py] as the same values, in the same
    order, and without any message. *)
Theorem data_read_alike (file : string) (stdin : list string) (vs : list pyfloat)
    (w : world) (h : list Window.t) (so se : list message) :
  (read_data file false stdin w).1 = Ok vs ->
  drain (load_stream stdin) (World h so se) = (Ok vs, World h so se).
Proof.
  intros Hread. unfold read_data in Hread. unfold ret at 1 in Hread.
  unfold bind at 1 in Hread. rewrite comprehension_float in Hread.
  destruct (mapM _ stdin) as [vs'|] eqn:Hm; [|discriminate Hread].
  injection Hread as ->. apply mapM_Some in Hm.
  rewrite (drain_yields _ _ h so se (load_stream_yields stdin)).
  assert (line_events stdin = value_events vs) as ->.
  { unfold line_events, value_events.
    induction Hm as [|line v lines vs Hv _ IH]; [done|].
    simpl. by rewrite (line_event_float line v Hv), IH. }
  rewrite values_value_events.
  assert (concat (map snd (value_events vs)) = []) as ->.
  { clear Hm. induction vs as [|v vs IH]; [done|exact IH]. }
  by rewrite app_nil_r.
Qed.

Lemma data_read_alike_witness :
  drain (load_stream ["1.0"; " 2.5 "; "-3e2"]%string) (World [] [] [])
  = (Ok [of_Z 1; Fin (5 # 2); of_Z (-300)], World [] [] []).
Proof.
  apply (data_read_alike "fit-in-py.py" ["1.0"; " 2.5 "; "-3e2"]%string
           [of_Z 1; Fin (5 # 2); of_Z (-300)] (World [] [] []) [] [] []).
  reflexivity.
Defined.

(** ** The script *)

(** X15. [control_chart.py] never ends on an uncaught exception: whatever
    the command line and the input, it ends by [sys.exit], with status 0, 1
    or 2, and with status 1 exactly when standard input is a terminal. When
    the status is not 0, no window has been created. Away from a terminal,
    standard output is written to only if the command line asks for the
    help, and status 0 without the help means that [-m] and [-s] were both
    given. *)
Theorem script_always_exits (fname : string) (isatty : bool)
    (argv : list argument) (stdin : list string)
    (h : list Window.t) (so se : list message) :
  exists code w,
    script fname isatty argv stdin (World h so se) = (Raise (SystemExit code), w)
    /\ (code = 0%Z \/ code = 1%Z \/ code = 2%Z)
    /\ (code = 1%Z <-> isatty = true)
    /\ (code <> 0%Z -> heap w = h)
    /\ (isatty = false -> existsb is_help argv = false ->
        stdout w = so
        /\ (code = 0%Z -> existsb is_center argv = true /\ existsb is_stdev argv = true)).
Proof.
  destruct isatty.
  - exists 1%Z. eexists. split.
    + apply script_stops, parse_args_tty.
    + repeat split; try done; auto.
  - destruct (parse_args_cases fname argv h so se)
      as [(options & Hrun & Hm & Hs)|[[msg Hrun]|(help & Hrun & Hhelp)]].
    + exists 0%Z. eexists. split; [by apply script_runs|].
      repeat split; try done; auto.
    + exists 2%Z. eexists. split; [by apply script_stops|].
      repeat split; try done; auto.
    + exists 0%Z. eexists. split; [by apply script_stops|].
      repeat split; try done; auto; congruence.
Qed.

(** ** The engine, value by value *)

Lemma engine_trace_snoc options xs x : forall e,
  (engine_trace options e (value_events (xs ++ [x]))).2
  = (engine_trace options e (value_events xs)).2
    ++ engine_lines options (fold_left engine_feed (xs ++ [x]) e) x.
Proof.
  induction xs as [|y xs IH]; intros e; simpl.
  - by rewrite app_nil_r.
  - specialize (IH (engine_feed e y)).
    destruct (engine_trace options (engine_feed e y) (value_events (xs ++ [x])))
      as [e1 log1].
    destruct (engine_trace options (engine_feed e y) (value_events xs)) as [e0 log0].
    simpl in *. rewrite IH. by rewrite <- app_assoc.
Qed.

Lemma engine_fed options xs :
  fold_left engine_feed xs (engine_fresh options)
  = Engine (fed 3 (Namespace.m options) xs) (fed 5 (Namespace.m options) xs)
           (map (fun n => fed n (Namespace.m options) xs) sizes).
Proof.
  pose proof (engine_heap_fed options xs) as H.
  destruct (fold_left engine_feed xs (engine_fresh options)) as [a b c].
  unfold engine_heap in H. simpl in H. by injection H as -> -> ->.
Qed.

Lemma written_control_chart_snoc options xs x h so se :
  let m := Namespace.m options in
  written (control_chart (iter (xs ++ [x])) options) (World h so se)
  = written (control_chart (iter xs) options) (World h so se)
    ++ sigma3_lines (limit options 3).1 (limit options 3).2 x
    ++ sigma2_lines (limit options 2).1 (limit options 2).2
         (Window.data (fed 3 m (xs ++ [x])))
    ++ sigma1_lines (limit options 1).1 (limit options 1).2
         (Window.data (fed 5 m (xs ++ [x])))
    ++ tiers_lines m thresholds (map (fun n => fed n m (xs ++ [x])) sizes).
Proof.
  intros m.
  rewrite !(written_spec _ _ _ _ _ _ _ _
              (control_chart_spec (iter _) (value_events _) options h so se
                 (iter_yields _))).
  by rewrite engine_trace_snoc, engine_fed.
Qed.

(** X16. [control_chart] runs the four tests side by side: the lines it
    writes for a value are those the 3-sigma, the 2-sigma, the 1-sigma and
    the centerline-shift tests write for it, in this order, each as it
    writes them when it is fed the same values alone. *)
Theorem control_chart_composes_the_tests (options : Namespace.t) (xs : list pyfloat)
    (x : pyfloat) (w : world) :
  exists l3 l2 l1 ls,
    written (feed test_3_sigma options (xs ++ [x])) w
    = written (feed test_3_sigma options xs) w ++ l3
    /\ written (feed test_2_sigma options (xs ++ [x])) w
       = written (feed test_2_sigma options xs) w ++ l2
    /\ written (feed test_1_sigma options (xs ++ [x])) w
       = written (feed test_1_sigma options xs) w ++ l1
    /\ written (feed test_cl_shift options (xs ++ [x])) w
       = written (feed test_cl_shift options xs) w ++ ls
    /\ written (control_chart (iter (xs ++ [x])) options) w
       = written (control_chart (iter xs) options) w ++ l3 ++ l2 ++ l1 ++ ls.
Proof.
  destruct w as [h so se].
  pose proof (fun zs => feed_test_3_sigma_values options zs h so se) as Hfeed.
  eexists. eexists. eexists. eexists.
  split; [|split; [|split; [|split]]].
  - rewrite !(written_spec _ _ _ _ _ _ _ _ (Hfeed _)).
    rewrite flat_map_app. simpl. by rewrite app_nil_r.
  - apply written_feed_test_2_sigma_snoc.
  - apply written_feed_test_1_sigma_snoc.
  - rewrite !(written_spec _ _ _ _ _ _ _ _ (feed_test_cl_shift options _ h so se)).
    rewrite shift_trace_snoc, map_map. reflexivity.
  - rewrite written_control_chart_snoc. reflexivity.
Qed.




(** ** Stripping *)

Lemma lstrip_with_length p l : length (lstrip_with p l) <= length l.
Proof. induction l as [|a l IH]; simpl; [lia|]. destruct (p a); simpl; lia. Qed.

Lemma lstrip_with_all p pre l :
  Forall (fun c => p c = true) pre -> lstrip_with p (pre ++ l) = lstrip_with p l.
Proof. induction 1 as [|c pre Hc _ IH]; simpl; [done|]. by rewrite Hc. Qed.

(** Stripping removes what can be stripped around a list whose two ends
    cannot. *)
Lemma strip_with_around p pre mid post a t b t' :
  Forall (fun c => p c = true) pre -> Forall (fun c => p c = true) post ->
  mid = a :: t -> p a = false -> rev mid = b :: t' -> p b = false ->
  strip_with p (pre ++ mid ++ post) = mid.
Proof.
  intros Hpre Hpost Hmid Ha Hrev Hb. unfold strip_with.
  rewrite (lstrip_with_all p pre _ Hpre). rewrite Hmid at 1. simpl. rewrite Ha.
  change (a :: t ++ post) with ((a :: t) ++ post). rewrite <- Hmid.
  rewrite rev_app_distr, lstrip_with_all by (by apply Forall_rev).
  rewrite Hrev. simpl. rewrite Hb. rewrite <- Hrev. apply rev_involutive.
Qed.

(** A list that stripping leaves as it is has ends that cannot be stripped. *)
Lemma strip_with_fixed p l :
  strip_with p l = l -> l <> [] ->
  exists a t b t', l = a :: t /\ p a = false /\ rev l = b :: t' /\ p b = false.
Proof.
  intros Hfix Hne. unfold strip_with in Hfix.
  pose proof (f_equal (@length ascii) Hfix) as Hlen. rewrite length_rev in Hlen.
  pose proof (lstrip_with_length p (rev (lstrip_with p l))) as H1.
  rewrite length_rev in H1.
  destruct l as [|a t]; [done|]. simpl lstrip_with in *.
  destruct (p a) eqn:Ha.
  { pose proof (lstrip_with_length p t). simpl in Hlen. lia. }
  apply (f_equal (@rev ascii)) in Hfix. rewrite rev_involutive in Hfix.
  destruct (rev (a :: t)) as [|b t'] eqn:Hrev.
  { apply (f_equal (@length ascii)) in Hrev. rewrite length_rev in Hrev. done. }
  simpl in Hfix. destruct (p b) eqn:Hb.
  { pose proof (lstrip_with_length p t') as H2. rewrite Hfix in H2. simpl in H2. lia. }
  by exists a, t, b, t'.
Qed.

Lemma list_ascii_of_string_app s1 s2 :
  list_ascii_of_string (s1 ++ s2)
  = list_ascii_of_string s1 ++ list_ascii_of_string s2.
Proof. induction s1 as [|c s1 IH]; simpl; [done|]. by rewrite IH. Qed.

Lemma strip_fixed s :
  strip s = s -> strip_with isspace (list_ascii_of_string s) = list_ascii_of_string s.
Proof.
  unfold strip. intros H. apply (f_equal list_ascii_of_string) in H.
  by rewrite list_ascii_of_string_of_list_ascii in H.
Qed.

Lemma strip_char_fixed c s :
  strip_char c s = s ->
  strip_with (Ascii.eqb c) (list_ascii_of_string s) = list_ascii_of_string s.
Proof.
  unfold strip_char. intros H. apply (f_equal list_ascii_of_string) in H.
  by rewrite list_ascii_of_string_of_list_ascii in H.
Qed.

(** X18. A number between quotes is read as the number: when a line is a
    text [s] with a quote, single or double, before it and one after it,
    matching or not, [load_stream] treats it as [float] treats [s], [s]
    being a text with no white space and no quote at its ends. The message
    for a text that is not a number shows the line with its quotes. *)
Theorem quotes_are_dropped (s : string) (q1 q2 : ascii)
    (h : list Window.t) (so se : list message) :
  let line := String q1 (s ++ String q2 EmptyString) in
  (q1 = dquote \/ q1 = "'"%char) -> (q2 = dquote \/ q2 = "'"%char) ->
  s <> EmptyString ->
  strip s = s -> strip_char dquote s = s -> strip_char "'" s = s ->
  load_line line (World h so se)
  = match float_of_string s with
    | Some x => (Ok (Some x), World h so se)
    | None =>
        (Ok None, World h so (se ++ [Message "invalid line %r" [AStr line]]))
    end.
Proof.
  intros line Hq1 Hq2 Hne Hsp Hdq Hsq.
  set (l := list_ascii_of_string s).
  assert (l <> []) as Hl.
  { intros H. apply Hne. rewrite <- (string_of_list_ascii_of_string s). fold l.
    by rewrite H. }
  destruct (strip_with_fixed _ _ (strip_fixed s Hsp) Hl)
    as (a & t & b & t' & Ha & Hasp & Hb & Hbsp).
  destruct (strip_with_fixed _ _ (strip_char_fixed _ s Hdq) Hl)
    as (a1 & t1 & b1 & t1' & Ha1 & Hadq & Hb1 & Hbdq).
  destruct (strip_with_fixed _ _ (strip_char_fixed _ s Hsq) Hl)
    as (a2 & t2 & b2 & t2' & Ha2 & Hasq & Hb2 & Hbsq).
  fold l in Ha, Hb, Ha1, Hb1, Ha2, Hb2.
  rewrite Ha in Ha1, Ha2. injection Ha1 as <- <-. injection Ha2 as <- <-.
  rewrite Hb in Hb1, Hb2. injection Hb1 as <- <-. injection Hb2 as <- <-.
  assert (list_ascii_of_string line = q1 :: l ++ [q2]) as Hline.
  { subst line. simpl. by rewrite list_ascii_of_string_app. }
  assert (rev (q1 :: l ++ [q2]) = q2 :: rev l ++ [q1]) as Hrev.
  { simpl. by rewrite rev_app_distr. }
  assert (isspace q1 = false /\ isspace q2 = false) as [Hs1 Hs2].
  { destruct Hq1 as [-> | ->], Hq2 as [-> | ->]; done. }
  assert (strip line = line) as Hstrip.
  { unfold strip. rewrite Hline.
    assert (strip_with isspace (q1 :: l ++ [q2]) = q1 :: l ++ [q2]) as ->.
    { rewrite <- (app_nil_r (q1 :: l ++ [q2])) at 1.
      by apply (strip_with_around isspace [] (q1 :: l ++ [q2]) []
                  q1 (l ++ [q2]) q2 (rev l ++ [q1])). }
    rewrite <- Hline. apply string_of_list_ascii_of_string. }
  assert (strip_char "'" (strip_char dquote line) = s) as Hclean.
  { unfold strip_char. rewrite Hline, list_ascii_of_string_of_list_ascii.
    rewrite <- (string_of_list_ascii_of_string s). fold l. f_equal.
    assert (rev (l ++ [q2]) = q2 :: rev l) as Hr2 by (by rewrite rev_app_distr).
    assert (rev (q1 :: l) = b :: t' ++ [q1]) as Hr1 by (simpl; by rewrite Hb).
    assert (forall p, strip_with p l = (strip_with p (l ++ [])))
      as Hnil by (intros p; by rewrite app_nil_r).
    destruct Hq1 as [-> | ->], Hq2 as [-> | ->].
    - assert (strip_with (Ascii.eqb dquote) (dquote :: l ++ [dquote]) = l) as ->.
      { apply (strip_with_around _ [dquote] l [dquote] a t b t');
          done || by repeat constructor. }
      rewrite Hnil.
      by apply (strip_with_around _ [] l [] a t b t').
    - assert (strip_with (Ascii.eqb dquote) (dquote :: l ++ ["'"%char])
              = l ++ ["'"%char]) as ->.
      { rewrite <- (app_nil_r (dquote :: l ++ ["'"%char])).
        apply (strip_with_around _ [dquote] (l ++ ["'"%char]) []
                 a (t ++ ["'"%char]) "'"%char (rev l));
          done || (by repeat constructor) || (by rewrite Ha). }
      apply (strip_with_around _ [] l ["'"%char] a t b t');
        done || by repeat constructor.
    - assert (strip_with (Ascii.eqb dquote) ("'"%char :: l ++ [dquote])
              = "'"%char :: l) as ->.
      { apply (strip_with_around _ [] ("'"%char :: l) [dquote]
                 "'"%char l b (t' ++ ["'"%char]));
          done || by repeat constructor. }
      rewrite <- (app_nil_r ("'"%char :: l)).
      apply (strip_with_around _ ["'"%char] l [] a t b t');
        done || by repeat constructor.
    - assert (strip_with (Ascii.eqb dquote) ("'"%char :: l ++ ["'"%char])
              = "'"%char :: l ++ ["'"%char]) as ->.
      { rewrite <- (app_nil_r ("'"%char :: l ++ ["'"%char])) at 1.
        by apply (strip_with_around _ [] ("'"%char :: l ++ ["'"%char]) []
                    "'"%char (l ++ ["'"%char]) "'"%char (rev l ++ ["'"%char])). }
      apply (strip_with_around _ ["'"%char] l ["'"%char] a t b t');
        done || by repeat constructor. }
  unfold load_line. rewrite Hstrip.
  assert (String.eqb line EmptyString = false) as -> by done.
  assert (String.get 0 line = Some q1) as -> by done.
  assert ((Ascii.eqb q1 dquote || Ascii.eqb q1 "'")%bool = true) as ->.
  { by destruct Hq1 as [-> | ->]. }
  rewrite Hclean.
  unfold try_except, bind, float, ret, raise, err_out.
  by destruct (float_of_string s).
Qed.

Lemma quotes_are_dropped_witness :
  load_line (String dquote ("1.5" ++ String "'" EmptyString)) (World [] [] [])
  = match float_of_string "1.5" with
    | Some x => (Ok (Some x), World [] [] [])
    | None =>
        (Ok None,
         World [] [] ([] ++ [Message "invalid line %r"
                               [AStr (String dquote ("1.5" ++ String "'" EmptyString))]]))
    end.
Proof.
  apply (quotes_are_dropped "1.5" dquote "'" [] [] []); try reflexivity.
  - by left.
  - by right.
  - discriminate.
Defined.

(** ** The limits of the interpreter *)

(** A centerline that is a float is within the rounded limits when the
    standard deviation is not negative. *)
Lemma rounded_centerline_inside (k : Z) (m s : pyfloat) :
  (0 < k)%Z -> Binary64.is_float m = true -> (of_Z 0 <=? s)%py = true ->
  inside (m - of_Z k * s)%b64 (m + of_Z k * s)%b64 m.
Proof.
  intros Hk Hm Hs. pose proof (rounded_mul_nonneg k s Hk Hs) as Ht.
  set (t := (of_Z k * s)%b64) in *. clearbody t.
  unfold inside, Binary64.add, Binary64.sub.
  destruct m as [|b|q]; [done| |].
  - destruct t as [|[]|r]; try discriminate; by destruct b.
  - destruct t as [|[]|r]; try discriminate; [done|].
    cbn [PyFloat.add PyFloat.sub PyFloat.neg Binary64.of_exact].
    assert (0 <= r)%Q as Hr.
    { unfold of_Z in Ht. simpl in Ht.
      destruct (Qcompare_spec (inject_Z 0) r); try discriminate;
        change (inject_Z 0) with 0%Q in *; lra. }
    pose proof (round_mono q (q + r) ltac:(lra)) as Hup.
    pose proof (round_mono (q + - r) q ltac:(lra)) as Hlo.
    unfold Binary64.is_float in Hm.
    destruct (Binary64.round q) as [|b|q']; try discriminate.
    apply Qeq_bool_iff in Hm.
    split.
    + destruct (Binary64.round (q + r)) as [|[]|u]; try done.
      unfold gtb. simpl in *.
      destruct (Qcompare_spec q' u); try discriminate;
        destruct (Qcompare_spec u q); try reflexivity; exfalso; lra.
    + destruct (Binary64.round (q + - r)) as [|[]|l]; try done.
      simpl in *.
      destruct (Qcompare_spec l q'); try discriminate;
        destruct (Qcompare_spec q l); try reflexivity; exfalso; lra.
Qed.

Lemma written_feed_rounded_test_2_sigma_snoc options xs x h so se :
  written (feed Rounded.test_2_sigma options (xs ++ [x])) (World h so se)
  = written (feed Rounded.test_2_sigma options xs) (World h so se)
    ++ sigma2_lines (Namespace.m options - of_Z 2 * Namespace.s options)%b64
         (Namespace.m options + of_Z 2 * Namespace.s options)%b64
         (Window.data (fed 3 (Namespace.m options) (xs ++ [x]))).
Proof.
  rewrite !(written_spec _ _ _ _ _ _ _ _ (feed_rounded_test_2_sigma options _ h so se)).
  apply window_trace_snoc.
Qed.

Lemma written_feed_rounded_test_1_sigma_snoc options xs x h so se :
  written (feed Rounded.test_1_sigma options (xs ++ [x])) (World h so se)
  = written (feed Rounded.test_1_sigma options xs) (World h so se)
    ++ sigma1_lines (Namespace.m options - of_Z 1 * Namespace.s options)%b64
         (Namespace.m options + of_Z 1 * Namespace.s options)%b64
         (Window.data (fed 5 (Namespace.m options) (xs ++ [x]))).
Proof.
  rewrite !(written_spec _ _ _ _ _ _ _ _ (feed_rounded_test_1_sigma options _ h so se)).
  apply window_trace_snoc.
Qed.

(** X19. With the limits of the interpreter as well, and a standard
    deviation that is not negative, no window that the 2-sigma or the
    1-sigma test can reach has the threshold met on both sides: rounding
    keeps the lower limit below the upper one. Each call writes at most one
    line. *)
Theorem rounded_sides_exclusive (options : Namespace.t) (xs : list pyfloat)
    (x : pyfloat) (h : list Window.t) (so se : list message) :
  let m := Namespace.m options in
  let s := Namespace.s options in
  (of_Z 0 <=? s)%py = true ->
  (exists o log last,
     feed Rounded.test_2_sigma options xs (World h so se)
     = (Ok tt, World (h ++ [o]) so (se ++ log))
     /\ ~ (2 <= np_sum (np_gt (Window.data o) (m + of_Z 2 * s)%b64)
           /\ 2 <= np_sum (np_lt (Window.data o) (m - of_Z 2 * s)%b64))
     /\ written (feed Rounded.test_2_sigma options (xs ++ [x])) (World h so se)
        = log ++ last
     /\ length last <= 1)
  /\ (exists o log last,
     feed Rounded.test_1_sigma options xs (World h so se)
     = (Ok tt, World (h ++ [o]) so (se ++ log))
     /\ ~ (4 <= np_sum (np_gt (Window.data o) (m + of_Z 1 * s)%b64)
           /\ 4 <= np_sum (np_lt (Window.data o) (m - of_Z 1 * s)%b64))
     /\ written (feed Rounded.test_1_sigma options (xs ++ [x])) (World h so se)
        = log ++ last
     /\ length last <= 1).
Proof.
  intros m s Hs.
  assert (forall k n, (0 < k)%Z ->
            np_sum (np_gt (Window.data (fed n m xs)) (m + of_Z k * s)%b64)
            + np_sum (np_lt (Window.data (fed n m xs)) (m - of_Z k * s)%b64) <= n) as Hsum.
  { intros k n Hk. rewrite <- (fed_length n m xs) at 3. apply counts_share.
    apply fed_Forall.
    - intros Hgt. by apply (rounded_limits_ordered k).
    - apply Forall_true. intros v Hgt. by apply (rounded_limits_ordered k). }
  split.
  - exists (fed 3 m xs). eexists. eexists.
    split; [apply feed_rounded_test_2_sigma|]. split; [|split].
    + specialize (Hsum 2%Z 3 ltac:(lia)). lia.
    + erewrite written_spec; [|apply feed_rounded_test_2_sigma].
      apply window_trace_snoc.
    + unfold sigma2_lines. repeat case_match; simpl; lia.
  - exists (fed 5 m xs). eexists. eexists.
    split; [apply feed_rounded_test_1_sigma|]. split; [|split].
    + specialize (Hsum 1%Z 5 ltac:(lia)). lia.
    + erewrite written_spec; [|apply feed_rounded_test_1_sigma].
      apply window_trace_snoc.
    + unfold sigma1_lines. repeat case_match; simpl; lia.
Qed.

Lemma rounded_sides_exclusive_witness :
  let options := Namespace.mk (Binary64.round (1 # 10)) (Binary64.round (1 # 10)) in
  let x := Binary64.round (30000000000000004 # 100000000000000000) in
  exists o log last,
    feed Rounded.test_2_sigma options [x] boot = (Ok tt, World ([] ++ [o]) [] ([] ++ log))
    /\ ~ (2 <= np_sum (np_gt (Window.data o)
                         (Namespace.m options + of_Z 2 * Namespace.s options)%b64)
          /\ 2 <= np_sum (np_lt (Window.data o)
                            (Namespace.m options - of_Z 2 * Namespace.s options)%b64))
    /\ written (feed Rounded.test_2_sigma options ([x] ++ [x])) boot = log ++ last
    /\ length last <= 1.
Proof.
  intros options x.
  apply (rounded_sides_exclusive options [x] x [] [] []). reflexivity.
Defined.

(** X20. With the limits of the interpreter as well, the initial value of
    the slots is neutral for the 2-sigma and the 1-sigma tests when the
    centerline is a float and the standard deviation is not negative: the
    rounded limits enclose the centerline. *)
Theorem rounded_padding_never_fires (options : Namespace.t) :
  let m := Namespace.m options in
  let s := Namespace.s options in
  Binary64.is_float m = true -> (of_Z 0 <=? s)%py = true ->
  padding_neutral Rounded.test_2_sigma options [3]
    (m - of_Z 2 * s)%b64 (m + of_Z 2 * s)%b64
  /\ padding_neutral Rounded.test_1_sigma options [5]
       (m - of_Z 1 * s)%b64 (m + of_Z 1 * s)%b64.
Proof.
  intros m s Hm Hs. split.
  - pose proof (rounded_centerline_inside 2 m s ltac:(lia) Hm Hs) as Hin.
    intros xs h so se. eexists. split; [apply feed_rounded_test_2_sigma|]. split.
    + intros n _ Hn. apply counts_prefix; [done|lia].
    + intros Hxs.
      apply (window_trace_nil _ (inside (m - of_Z 2 * s)%b64 (m + of_Z 2 * s)%b64));
        [|exact (Forall_replicate _ 3 _ Hin)|done].
      intros o Ho. by apply sigma2_lines_inside.
  - pose proof (rounded_centerline_inside 1 m s ltac:(lia) Hm Hs) as Hin.
    intros xs h so se. eexists. split; [apply feed_rounded_test_1_sigma|]. split.
    + intros n _ Hn. apply counts_prefix; [done|lia].
    + intros Hxs.
      apply (window_trace_nil _ (inside (m - of_Z 1 * s)%b64 (m + of_Z 1 * s)%b64));
        [|exact (Forall_replicate _ 5 _ Hin)|done].
      intros o Ho. by apply sigma1_lines_inside.
Qed.

Lemma rounded_padding_never_fires_witness :
  let m := Binary64.round (1 # 10) in
  let s := Binary64.round (3 # 10) in
  padding_neutral Rounded.test_2_sigma (Namespace.mk m s) [3]
    (m - of_Z 2 * s)%b64 (m + of_Z 2 * s)%b64.
Proof.
  intros m s.
  apply (rounded_padding_never_fires (Namespace.mk m s)); reflexivity.
Defined.
